(** * Knowledge Base export: [scripts/export-knowledge-data.js]

    A shallow embedding of the conversion script (CSV rendering, summary
    statistics, and the driver that reads [articles.json] and writes the
    outputs), together with the properties its specification states.

    Modelling conventions.
    - A JS string is a [string]; the three characters the script inspects
      (comma, double quote, line feed) are ASCII, so working on bytes agrees
      with working on UTF-16 code units.
    - A JS number is an integer [Z] (the safe-integer range, where
      [String(n)] is the decimal numeral); fractional numbers are outside
      the model.
    - A record is a plain object obtained from [JSON.parse]: its own
      enumerable properties, in [Object.keys] order, as an association
      list.  Property reads go through the prototype chain, that is, a name
      the object does not own is looked up on [Object.prototype].
    - The tally objects of the summary ([articleTypes], ...) are plain
      objects created by the literal [{}]; their own properties are a
      [gmap], reads and writes again go through [Object.prototype].
    - Built-ins whose results are not determined by the script
      ([Date.parse], [JSON.parse], [JSON.stringify], the clock, file
      permissions) are section variables. *)

From Stdlib Require Import ZArith String Ascii List Bool Lia DecimalString.
From stdpp Require Import gmap strings list fin_maps.

Open Scope Z_scope.

(** ** JavaScript values and the built-ins the script relies on *)

Module JS.

(** The scalars a record field holds after [JSON.parse]. *)
Inductive scalar : Type :=
| SNull
| SBool (b : bool)
| SNum (n : Z)
| SStr (s : string).

(** Values that can flow through the script: the scalars, [undefined]
    (what reading an absent property yields), and the two kinds of object
    reachable through the prototype chain, a built-in method of
    [Object.prototype] and [Object.prototype] itself (the value of
    [__proto__]). *)
Inductive value : Type :=
| VUndefined
| VNull
| VBool (b : bool)
| VNum (n : Z)
| VStr (s : string)
| VNative (name : string)
| VObjectPrototype.

#[global] Instance scalar_eq_dec : EqDecision scalar.
Proof. solve_decision. Defined.

#[global] Instance value_eq_dec : EqDecision value.
Proof. solve_decision. Defined.

Definition of_scalar (x : scalar) : value :=
  match x with
  | SNull => VNull
  | SBool b => VBool b
  | SNum n => VNum n
  | SStr s => VStr s
  end.

Definition comma : ascii := ","%char.
Definition dquote : ascii := "034"%char.
Definition newline : ascii := "010"%char.
Definition carriage_return : ascii := "013"%char.

Definition str (c : ascii) : string := String c EmptyString.

(** [Array.prototype.join] on an array of strings. *)
Definition join (sep : string) (parts : list string) : string :=
  String.concat sep parts.

(** [Number.prototype.toString] on an integer, in decimal digits.  From
    a magnitude of 1e21 JavaScript writes the exponent form instead, which
    is not modelled. *)
Definition Number_toString (n : Z) : string :=
  NilZero.string_of_int (Z.to_int n).

(** [Function.prototype.toString] on a built-in function (Node/V8). *)
Definition native_source (name : string) : string :=
  "function " +:+ name +:+ "() { [native code] }".

(** [String(v)], which is also [ToPropertyKey] on these values. *)
Definition String_ (v : value) : string :=
  match v with
  | VUndefined => "undefined"
  | VNull => "null"
  | VBool true => "true"
  | VBool false => "false"
  | VNum n => Number_toString n
  | VStr s => s
  | VNative name => native_source name
  | VObjectPrototype => "[object Object]"
  end.

(** [ToBoolean]. *)
Definition truthy (v : value) : bool :=
  match v with
  | VUndefined | VNull => false
  | VBool b => b
  | VNum n => negb (Z.eqb n 0)
  | VStr s => negb (String.eqb s "")
  | VNative _ | VObjectPrototype => true
  end.

(** [s.includes(needle)]. *)
Fixpoint includes (s needle : string) : bool :=
  String.prefix needle s ||
  match s with
  | EmptyString => false
  | String _ rest => includes rest needle
  end.

(** The global replacement of line 49: every double quote becomes two. *)
Fixpoint replace_quotes (s : string) : string :=
  match s with
  | EmptyString => EmptyString
  | String c rest =>
      if Ascii.eqb c dquote
      then String dquote (String dquote (replace_quotes rest))
      else String c (replace_quotes rest)
  end.

(** The method names [Object.prototype] carries; each is a built-in
    function whose [name] is the property name. *)
Definition ObjectPrototype_methods : list string :=
  [ "__defineGetter__"; "__defineSetter__"; "hasOwnProperty";
    "__lookupGetter__"; "__lookupSetter__"; "isPrototypeOf";
    "propertyIsEnumerable"; "toString"; "valueOf"; "toLocaleString" ].

(** Reading property [k] of [Object.prototype]. *)
Definition ObjectPrototype_get (k : string) : value :=
  if decide (k = "constructor") then VNative "Object"
  else if decide (k = "__proto__") then VObjectPrototype
  else if decide (k ∈ ObjectPrototype_methods) then VNative k
  else VUndefined.

(** A name is inherited when a plain object that does not own it still
    yields a value for it. *)
Definition inherited (k : string) : Prop := ObjectPrototype_get k ≠ VUndefined.

#[global] Instance inherited_dec k : Decision (inherited k).
Proof. unfold inherited. apply _. Defined.

(** A record: the own enumerable properties of a parsed JSON object, in
    [Object.keys] order. *)
Definition record : Type := list (string * scalar).

Fixpoint own (r : record) (k : string) : option scalar :=
  match r with
  | [] => None
  | (k', x) :: rest => if decide (k' = k) then Some x else own rest k
  end.

(** [r[k]] for a plain object [r]: the own property, else the one of
    [Object.prototype]. *)
Definition Get (r : record) (k : string) : value :=
  match own r k with
  | Some x => of_scalar x
  | None => ObjectPrototype_get k
  end.

(** [Object.keys(r)]. *)
Definition Object_keys (r : record) : list string := map fst r.

(** What [JSON.parse] can hand to the script: a scalar, a flat object,
    or an array of flat objects (the agreed input shape; arrays with
    other elements are outside the model). *)
Inductive parsed : Type :=
| PScalar (x : scalar)
| PObject (r : record)
| PArray (elements : list record).

Definition is_array (p : parsed) : bool :=
  match p with PArray _ => true | _ => false end.

(** How the evaluation of a piece of script ends. *)
Inductive completion (A : Type) : Type :=
| Return (a : A)
| Throw (message : string)
| Exit (code : Z).
Arguments Return {A} a.
Arguments Throw {A} message.
Arguments Exit {A} code.

#[global] Instance completion_ret : MRet completion := @Return.

#[global] Instance completion_bind : MBind completion := fun A B k c =>
  match c with
  | Return a => k a
  | Throw m => Throw m
  | Exit n => Exit n
  end.

End JS.
Export JS.

(** ** Dynamic operations on the parsed document *)

(** [!articles] is the negation of this. *)
Definition truthy_parsed (articles : parsed) : bool :=
  match articles with
  | PScalar x => truthy (of_scalar x)
  | PObject _ | PArray _ => true
  end.

(** [articles.length].  The length of a string counts its bytes here and
    its UTF-16 code units in JavaScript; the two agree on ASCII text. *)
Definition prop_length (articles : parsed) : completion value :=
  match articles with
  | PScalar SNull => Throw "Cannot read properties of null (reading 'length')"
  | PScalar (SStr s) => Return (VNum (Z.of_nat (String.length s)))
  | PScalar _ => Return VUndefined
  | PObject r => Return (Get r "length")
  | PArray elements => Return (VNum (Z.of_nat (length elements)))
  end.

(** [v === 0]. *)
Definition is_zero (v : value) : bool :=
  match v with
  | VNum n => Z.eqb n 0
  | _ => false
  end.

(** The index keys of a string or array of the given length. *)
Definition index_keys (n : nat) : list string :=
  map (fun i => Number_toString (Z.of_nat i)) (seq 0 n).

(** [Object.keys(articles[0])]. *)
Definition first_keys (articles : parsed) : completion (list string) :=
  let no_object := "Cannot convert undefined or null to object" in
  match articles with
  | PArray (first :: _) => Return (Object_keys first)
  | PArray [] => Throw no_object
  | PObject r =>
      match own r "0" with
      | None | Some SNull => Throw no_object
      | Some (SStr s) => Return (index_keys (String.length s))
      | Some _ => Return []
      end
  | PScalar (SStr (String _ _)) => Return ["0"]
  | PScalar SNull => Throw "Cannot read properties of null (reading '0')"
  | PScalar _ => Throw no_object
  end.

(** [articles.map(f)]: only an array has a callable [map]. *)
Definition Array_map {B} (f : record → B) (articles : parsed) : completion (list B) :=
  match articles with
  | PArray elements => Return (map f elements)
  | _ => Throw "articles.map is not a function"
  end.

(** [articles.forEach(f)], with the object the callback mutates threaded
    through as an accumulator. *)
Definition Array_forEach {S} (f : S → record → S) (articles : parsed) (init : S) : completion S :=
  match articles with
  | PArray elements => Return (fold_left f elements init)
  | _ => Throw "articles.forEach is not a function"
  end.

(** ** [jsonToCsv] (lines 29-59) *)

(** The body of the inner [headers.map] callback (lines 43-54). *)
Definition csv_cell (value : JS.value) : string :=
  match value with
  | VNull | VUndefined => ""
  | _ =>
      let stringValue := replace_quotes (String_ value) in
      if includes stringValue (str comma) || includes stringValue (str dquote)
         || includes stringValue (str newline)
      then str dquote +:+ stringValue +:+ str dquote
      else stringValue
  end.

(** The body of the outer [articles.map] callback (lines 41-56). *)
Definition csv_row (headers : list string) (article : record) : string :=
  join "," (map (fun header => csv_cell (Get article header)) headers).

Definition jsonToCsv (articles : parsed) : completion string :=
  if negb (truthy_parsed articles) then Return ""
  else
    len ← prop_length articles;
    if is_zero len then Return ""
    else
      headers ← first_keys articles;
      let csvHeader := join "," headers in
      csvRows ← Array_map (csv_row headers) articles;
      Return (join (str newline) (csvHeader :: csvRows)).

(** ** A reader for one RFC 4180 record

    The reference against which the quoting of [jsonToCsv] is checked: the
    [record] production of RFC 4180, section 2 (fields separated by commas;
    a field is either unquoted text or enclosed in double quotes with every
    inner double quote doubled), with the characters of its grammar:

      field       = escaped / non-escaped
      escaped     = DQUOTE *(TEXTDATA / COMMA / CR / LF / 2DQUOTE) DQUOTE
      non-escaped = *TEXTDATA
      TEXTDATA    = %x20-21 / %x23-2B / %x2D-7E

    Unquoted text holds no comma, no double quote, no line break and no
    other control character; any other character is refused, in either
    kind of field. *)

Module Rfc4180.

Inductive state : Type := FieldStart | Unquoted | Quoted | QuoteSeen.

(** TEXTDATA: the printable ASCII characters but comma and double quote. *)
Definition textdata (c : ascii) : bool :=
  let n := N_of_ascii c in
  (((32 <=? n) && (n <=? 33)) || ((35 <=? n) && (n <=? 43))
   || ((45 <=? n) && (n <=? 126)))%N.

(** What may stand between the double quotes of an escaped field, the
    doubled double quote apart. *)
Definition quoted_char (c : ascii) : bool :=
  textdata c || Ascii.eqb c comma || Ascii.eqb c carriage_return
  || Ascii.eqb c newline.

Fixpoint read (st : state) (field : string) (fields : list string) (input : string)
  : option (list string) :=
  match input with
  | EmptyString =>
      match st with
      | Quoted => None
      | _ => Some (fields ++ [field])
      end
  | String c rest =>
      match st with
      | FieldStart =>
          if Ascii.eqb c dquote then read Quoted "" fields rest
          else if Ascii.eqb c comma then read FieldStart "" (fields ++ [""]) rest
          else if textdata c then read Unquoted (str c) fields rest
          else None
      | Unquoted =>
          if Ascii.eqb c comma then read FieldStart "" (fields ++ [field]) rest
          else if textdata c then read Unquoted (field +:+ str c) fields rest
          else None
      | Quoted =>
          if Ascii.eqb c dquote then read QuoteSeen field fields rest
          else if quoted_char c then read Quoted (field +:+ str c) fields rest
          else None
      | QuoteSeen =>
          if Ascii.eqb c dquote then read Quoted (field +:+ str dquote) fields rest
          else if Ascii.eqb c comma then read FieldStart "" (fields ++ [field]) rest
          else None
      end
  end.

Definition parse_record (line : string) : option (list string) :=
  read FieldStart "" [] line.

End Rfc4180.

(** ** [generateSummary] (lines 64-110) *)

(** [TimeClip] of the language standard: a time value is valid within
    8.64e15 milliseconds of the epoch. *)
Definition TimeClip (t : Z) : option Z :=
  if Z.abs t <=? 8640000000000000 then Some t else None.

(** [a < b] on two [Date] objects; an invalid date ([None], the time value
    NaN) compares false with everything. *)
Definition Date_lt (a b : option Z) : bool :=
  match a, b with
  | Some x, Some y => x <? y
  | _, _ => false
  end.

(** A plain object created by the literal [{}], used as a map: its own
    properties.  Reads fall back on [Object.prototype]. *)
Abbreviation plain_object := (gmap string value).

Definition plain_get (o : plain_object) (k : string) : value :=
  match o !! k with
  | Some v => v
  | None => ObjectPrototype_get k
  end.

(** [o[k] = v] for a number or string [v] (all the script stores): the
    assignment creates or overwrites an own property, except for
    [__proto__], whose setter ignores anything that is not an object. *)
Definition plain_set (o : plain_object) (k : string) (v : value) : plain_object :=
  if decide (k = "__proto__") then o else <[k := v]> o.

(** [(x || 0) + 1]: numeric addition, unless the left operand is a string
    or an object, which turns [+] into string concatenation. *)
Definition or_zero_plus_one (x : value) : value :=
  if truthy x then
    match x with
    | VNum n => VNum (n + 1)
    | VBool _ => VNum 2
    | _ => VStr (String_ x +:+ "1")
    end
  else VNum 1.

(** [o[key] = (o[key] || 0) + 1] (lines 84, 87, 90), where [key] is the
    field value converted to a property name. *)
Definition count (o : plain_object) (key : value) : plain_object :=
  let k := String_ key in
  plain_set o k (or_zero_plus_one (plain_get o k)).

Record Summary : Type := {
  exportDate : string;
  totalArticles : value;
  articleTypes : plain_object;
  languages : plain_object;
  publishStatuses : plain_object;
  visibleInPkb : Z;
  visibleInCsp : Z;
  visibleInPrm : Z;
  earliest : value;
  latest : value
}.

Section Summarize.

(** [Date.parse]: the time value of a date string, [None] when the string
    is not a date. *)
Variable Date_parse : string → option Z.

(** The time value of [new Date(v)]. *)
Definition Date_of (v : value) : option Z :=
  match v with
  | VUndefined => None
  | VNull => Some 0
  | VBool b => Some (if b then 1 else 0)
  | VNum n => TimeClip n
  | VStr s => Date_parse s
  | VNative _ | VObjectPrototype => Date_parse (String_ v)
  end.

(** Lines 98-102: the new value of [summary.dateRange.earliest]. *)
Definition track_earliest (current candidate : value) : value :=
  if truthy candidate then
    let createdDate := Date_of candidate in
    if negb (truthy current) || Date_lt createdDate (Date_of current)
    then candidate else current
  else current.

(** Lines 98-99, 103-105: the new value of [summary.dateRange.latest]. *)
Definition track_latest (current candidate : value) : value :=
  if truthy candidate then
    let createdDate := Date_of candidate in
    if negb (truthy current) || Date_lt (Date_of current) createdDate
    then candidate else current
  else current.

(** [if (flag) counter++]. *)
Definition count_if (flag : value) (counter : Z) : Z :=
  if truthy flag then counter + 1 else counter.

(** The [forEach] callback (lines 82-107), as a function from the summary
    before the call to the summary after it. *)
Definition tally_article (summary : Summary) (article : record) : Summary :=
  {| exportDate := exportDate summary;
     totalArticles := totalArticles summary;
     articleTypes := count (articleTypes summary) (Get article "articleType");
     languages := count (languages summary) (Get article "language");
     publishStatuses := count (publishStatuses summary) (Get article "publishStatus");
     visibleInPkb := count_if (Get article "isVisibleInPkb") (visibleInPkb summary);
     visibleInCsp := count_if (Get article "isVisibleInCsp") (visibleInCsp summary);
     visibleInPrm := count_if (Get article "isVisibleInPrm") (visibleInPrm summary);
     earliest := track_earliest (earliest summary) (Get article "createdDate");
     latest := track_latest (latest summary) (Get article "createdDate") |}.

(** The object literal of lines 65-80; [now] is the reading of
    [new Date().toISOString()]. *)
Definition initial_summary (now : string) (total : value) : Summary :=
  {| exportDate := now;
     totalArticles := total;
     articleTypes := ∅;
     languages := ∅;
     publishStatuses := ∅;
     visibleInPkb := 0;
     visibleInCsp := 0;
     visibleInPrm := 0;
     earliest := VNull;
     latest := VNull |}.

Definition generateSummary (now : string) (articles : parsed) : completion Summary :=
  total ← prop_length articles;
  Array_forEach tally_article articles (initial_summary now total).

(** [generateSummary] on an array of records never throws; this is its
    result. *)
Definition summarize (now : string) (articles : list record) : Summary :=
  fold_left tally_article articles
    (initial_summary now (VNum (Z.of_nat (length articles)))).

End Summarize.

(** ** The driver: [logExport] and [exportKnowledgeData] (lines 115-177) *)

(** What a run can observe and change: the files, the two console
    streams, and how many times the clock has been read. *)
Record world : Type := {
  files : gmap string string;
  stdout : list string;
  stderr : list string;
  ticks : nat
}.

(** A piece of script run in a world: how it completes, and the world it
    leaves behind. *)
Definition M (A : Type) : Type := world → completion A * world.

#[global] Instance M_ret : MRet M := fun A a w => (Return a, w).

#[global] Instance M_bind : MBind M := fun A B k c w =>
  match c w with
  | (Return a, w') => k a w'
  | (Throw m, w') => (Throw m, w')
  | (Exit n, w') => (Exit n, w')
  end.

(** A pure computation that may throw. *)
Definition lift {A} (c : completion A) : M A := fun w => (c, w).

(** [try { body } catch (error) { handler(error.message) }]. *)
Definition try_catch {A} (body : M A) (handler : string → M A) : M A := fun w =>
  match body w with
  | (Throw m, w') => handler m w'
  | done => done
  end.

Definition process_exit {A} (code : Z) : M A := fun w => (Exit code, w).

Definition console_log (line : string) : M unit := fun w =>
  (Return (), {| files := files w; stdout := stdout w ++ [line];
                 stderr := stderr w; ticks := ticks w |}).

Definition console_error (line : string) : M unit := fun w =>
  (Return (), {| files := files w; stdout := stdout w;
                 stderr := stderr w ++ [line]; ticks := ticks w |}).

Definition fs_existsSync (path : string) : M bool := fun w =>
  (Return (bool_decide (is_Some (files w !! path))), w).

(** A file that exists can be read. *)
Definition fs_readFileSync (path : string) : M string := fun w =>
  match files w !! path with
  | Some text => (Return text, w)
  | None => (Throw ("ENOENT: no such file or directory, open '" +:+ path +:+ "'"), w)
  end.

(** The exit status of the process for a completed run: an uncaught
    exception ends Node with status 1. *)
Definition exit_status {A} (c : completion A) : Z :=
  match c with
  | Return _ => 0
  | Throw _ => 1
  | Exit code => code
  end.

(** The outcome of [JSON.parse]. *)
Inductive parse_result : Type :=
| SyntaxError (message : string)
| Parsed (document : parsed).

Section Driver.

Variable Date_parse : string → option Z.

(** [JSON.parse] and [JSON.stringify(summary, null, 2)]. *)
Variable JSON_parse : string → parse_result.
Variable JSON_stringify : Summary → string.

(** The n-th reading of [new Date().toISOString()]. *)
Variable clock : nat → string.

(** Whether the process may write to a path. *)
Variable writable : string → bool.

(** [path.join(__dirname, '..', 'data', 'knowledge_base')]. *)
Variable DATA_DIR : string.

Definition ARTICLES_JSON : string := DATA_DIR +:+ "/articles.json".
Definition ARTICLES_CSV : string := DATA_DIR +:+ "/articles.csv".
Definition SUMMARY_JSON : string := DATA_DIR +:+ "/articles_summary.json".
Definition LOG_FILE : string := DATA_DIR +:+ "/export_log.txt".

Definition denied (path : string) : string :=
  "EACCES: permission denied, open '" +:+ path +:+ "'".

Definition fs_writeFileSync (path data : string) : M unit := fun w =>
  if writable path
  then (Return (), {| files := <[path := data]> (files w); stdout := stdout w;
                      stderr := stderr w; ticks := ticks w |})
  else (Throw (denied path), w).

Definition fs_appendFileSync (path data : string) : M unit := fun w =>
  if writable path
  then (Return (), {| files := <[path := default "" (files w !! path) +:+ data]> (files w);
                      stdout := stdout w; stderr := stderr w; ticks := ticks w |})
  else (Throw (denied path), w).

Definition now_toISOString : M string := fun w =>
  (Return (clock (ticks w)), {| files := files w; stdout := stdout w;
                                stderr := stderr w; ticks := S (ticks w) |}).

Definition parse (text : string) : M parsed :=
  match JSON_parse text with
  | SyntaxError message => lift (Throw message)
  | Parsed document => mret document
  end.

(** Lines 115-124. *)
Definition logExport (operation status details : string) : M unit :=
  timestamp ← now_toISOString;
  let logEntry :=
    "[" +:+ timestamp +:+ "] " +:+ operation +:+ ": " +:+ status +:+
    (if truthy (VStr details) then " - " +:+ details else "") +:+ str newline in
  try_catch (fs_appendFileSync LOG_FILE logEntry)
    (fun message => console_error ("Failed to write to log file: " +:+ message)).

(** The number of own keys of a tally object, as printed. *)
Definition keys_length (o : plain_object) : string :=
  Number_toString (Z.of_nat (size o)).

(** Lines 145-170: what the [try] block does with the parsed document. *)
Definition process_articles (articles : parsed) : M unit :=
  len ← lift (prop_length articles);
  logExport "READ_ARTICLES" "SUCCESS" (String_ len +:+ " articles loaded");;
  console_log "Generating CSV format...";;
  csvData ← lift (jsonToCsv articles);
  fs_writeFileSync ARTICLES_CSV csvData;;
  console_log ("CSV saved to: " +:+ ARTICLES_CSV);;
  len ← lift (prop_length articles);
  logExport "GENERATE_CSV" "SUCCESS" (String_ len +:+ " articles converted");;
  console_log "Generating summary statistics...";;
  now ← now_toISOString;
  summary ← lift (generateSummary Date_parse now articles);
  fs_writeFileSync SUMMARY_JSON (JSON_stringify summary);;
  console_log ("Summary saved to: " +:+ SUMMARY_JSON);;
  logExport "GENERATE_SUMMARY" "SUCCESS"
    (String_ (totalArticles summary) +:+ " articles analyzed");;
  console_log (str newline +:+ "=== EXPORT SUMMARY ===");;
  console_log ("Total Articles: " +:+ String_ (totalArticles summary));;
  console_log ("Article Types: " +:+ keys_length (articleTypes summary));;
  console_log ("Languages: " +:+ keys_length (languages summary));;
  console_log ("Date Range: " +:+ String_ (earliest summary) +:+ " to " +:+
               String_ (latest summary));;
  console_log ("=====================" +:+ str newline);;
  console_log "Knowledge Base data export completed successfully!";;
  logExport "EXPORT_COMPLETE" "SUCCESS" "All formats generated".

(** Lines 172-176: the [catch] block. *)
Definition on_error (message : string) : M unit :=
  console_error ("Error during export: " +:+ message);;
  logExport "EXPORT_ERROR" "FAILED" message;;
  process_exit 1.

(** Lines 129-177. *)
Definition exportKnowledgeData : M unit :=
  console_log "Starting Knowledge Base data export...";;
  try_catch
    (found ← fs_existsSync ARTICLES_JSON;
     (if negb found then
        console_error "Error: articles.json not found in data/knowledge_base folder";;
        console_log "Please run the Apex script KnowledgeBaseExporter.apex first and save the output as articles.json";;
        process_exit 1
      else mret ());;
     console_log "Reading articles data...";;
     articlesData ← fs_readFileSync ARTICLES_JSON;
     articles ← parse articlesData;
     process_articles articles)
    on_error.

(** Running the script (line 181) in a world: the exit status and the
    world left behind. *)
Definition run (w : world) : Z * world :=
  let (c, w') := exportKnowledgeData w in (exit_status c, w').

End Driver.

(** ** A concrete date reader for the examples

    [Date.parse] restricted to the date-only form [YYYY-MM-DD] of the
    language standard, read as midnight UTC; every other string is taken
    as not a date, also a day beyond the month's last (2023-02-30), which
    V8 rolls over into the next month.  It instantiates [Date_parse] where
    a statement is evaluated on concrete records, and no general statement
    depends on it. *)

Definition digit (c : ascii) : option Z :=
  let n := Z.of_nat (nat_of_ascii c) in
  if (48 <=? n) && (n <=? 57) then Some (n - 48) else None.

Fixpoint digits (acc : Z) (s : string) : option Z :=
  match s with
  | EmptyString => Some acc
  | String c rest =>
      match digit c with
      | Some d => digits (10 * acc + d) rest
      | None => None
      end
  end.

Definition is_leap (y : Z) : bool :=
  ((y mod 4 =? 0) && negb (y mod 100 =? 0)) || (y mod 400 =? 0).

Definition days_in_month (y m : Z) : Z :=
  if m =? 2 then (if is_leap y then 29 else 28)
  else if (m =? 4) || (m =? 6) || (m =? 9) || (m =? 11) then 30
  else 31.

(** Days from 1970-01-01 to the given civil date. *)
Definition days_from_civil (y m d : Z) : Z :=
  let y' := if m <=? 2 then y - 1 else y in
  let era := y' / 400 in
  let yoe := y' - era * 400 in
  let doy := (153 * (if 2 <? m then m - 3 else m + 9) + 2) / 5 + d - 1 in
  let doe := yoe * 365 + yoe / 4 - yoe / 100 + doy in
  era * 146097 + doe - 719468.

Definition iso_date_parse (s : string) : option Z :=
  if (String.length s =? 10)%nat
     && bool_decide (String.get 4 s = Some "-"%char)
     && bool_decide (String.get 7 s = Some "-"%char)
  then
    match digits 0 (String.substring 0 4 s),
          digits 0 (String.substring 5 2 s),
          digits 0 (String.substring 8 2 s) with
    | Some y, Some m, Some d =>
        if (1 <=? m) && (m <=? 12) && (1 <=? d) && (d <=? days_in_month y m)
        then Some (days_from_civil y m d * 86400000)
        else None
    | _, _, _ => None
    end
  else None.

(** ** Vocabulary of the statements *)

(** Character [c] occurs in [s]. *)
Fixpoint occurs (c : ascii) (s : string) : bool :=
  match s with
  | EmptyString => false
  | String a rest => Ascii.eqb c a || occurs c rest
  end.

(** The text a cell stands for: the empty string for [null] and
    [undefined] (lines 45-47), the textual form of the value otherwise. *)
Definition cell_text (v : value) : string :=
  match v with
  | VNull | VUndefined => ""
  | _ => String_ v
  end.

(** The quoting the script applies to a cell, on a string. *)
Definition csv_quote (s : string) : string :=
  str dquote +:+ replace_quotes s +:+ str dquote.

(** One of the three characters that make the script quote a cell occurs
    in [s]. *)
Definition special (s : string) : bool :=
  occurs comma s || occurs dquote s || occurs newline s.

(** Every character of [s] satisfies [p]. *)
Fixpoint all_chars (p : ascii → bool) (s : string) : bool :=
  match s with
  | EmptyString => true
  | String c rest => p c && all_chars p rest
  end.

(** The text is made of characters that RFC 4180 admits in a field, quoted
    where needed: TEXTDATA, comma, double quote, carriage return and line
    feed. *)
Definition field_text (s : string) : bool :=
  all_chars (fun c => Rfc4180.quoted_char c || Ascii.eqb c dquote) s.

(** The text holds no carriage return that the script would leave outside
    quotes: it has none, or it is quoted for another character. *)
Definition no_bare_cr (s : string) : bool :=
  special s || negb (occurs carriage_return s).

(** The text can be carried by an RFC 4180 field the way the script writes
    it. *)
Definition readable (s : string) : bool := field_text s && no_bare_cr s.

(** How often character [c] occurs in [s]. *)
Fixpoint count_char (c : ascii) (s : string) : nat :=
  match s with
  | EmptyString => O
  | String a rest => ((if Ascii.eqb c a then 1 else 0) + count_char c rest)%nat
  end.

(** The commas inside the names of a header. *)
Definition commas_in (names : list string) : nat :=
  foldr (fun name n => (count_char comma name + n)%nat) O names.

(** A field name made of TEXTDATA and commas: no double quote, no line
    break, no other control character. *)
Definition plain_name (name : string) : bool :=
  all_chars (fun c => Rfc4180.textdata c || Ascii.eqb c comma) name.

(** What follows a cell in a rendered row: the end of the row, or a comma
    and the remaining cells. *)
Inductive follow : Type := AtEnd | AtComma (rest : string).

Definition follow_text (f : follow) : string :=
  match f with AtEnd => "" | AtComma rest => String comma rest end.

Definition follow_read (f : follow) (fields : list string) : option (list string) :=
  match f with
  | AtEnd => Some fields
  | AtComma rest => Rfc4180.read Rfc4180.FieldStart "" fields rest
  end.

(** The three designated categorical fields and their tally objects. *)
Inductive categorical : Type := ArticleType | Language | PublishStatus.

Definition field_name (c : categorical) : string :=
  match c with
  | ArticleType => "articleType"
  | Language => "language"
  | PublishStatus => "publishStatus"
  end.

Definition tally (c : categorical) (s : Summary) : plain_object :=
  match c with
  | ArticleType => articleTypes s
  | Language => languages s
  | PublishStatus => publishStatuses s
  end.

(** The three designated visibility flags and their counters. *)
Inductive visibility : Type := Pkb | Csp | Prm.

Definition flag_name (f : visibility) : string :=
  match f with
  | Pkb => "isVisibleInPkb"
  | Csp => "isVisibleInCsp"
  | Prm => "isVisibleInPrm"
  end.

Definition counter (f : visibility) (s : Summary) : Z :=
  match f with
  | Pkb => visibleInPkb s
  | Csp => visibleInCsp s
  | Prm => visibleInPrm s
  end.

(** The property name under which a record is counted for a field. *)
Definition bucket (field : string) (article : record) : string :=
  String_ (Get article field).

(** How many records are counted under bucket [k] for a field. *)
Definition occurrences (field k : string) (articles : list record) : nat :=
  length (filter (fun article => bucket field article = k) articles).

(** The sum of the values of a tally object, when they all are numbers. *)
Definition add_tally (k : string) (v : value) (acc : option Z) : option Z :=
  match v, acc with
  | VNum n, Some total => Some (n + total)
  | _, _ => None
  end.

Definition tally_sum (o : plain_object) : option Z :=
  map_fold add_tally (Some 0) o.

(** The date values the script looks at: those that pass the test
    [if (article.createdDate)] of line 98, in input order. *)
Definition present_dates (articles : list record) : list value :=
  filter (fun v => truthy v = true)
    (map (fun article => Get article "createdDate") articles).

(** Lines 98-105 with the time value of a date left open: the endpoint
    kept is the one whose time value is smaller.  [track_earliest] is the
    instance at [Date_of]; [track_latest] is the instance at the negated
    time value. *)
Definition track (time : value → option Z) (current candidate : value) : value :=
  if truthy candidate then
    if negb (truthy current) || Date_lt (time candidate) (time current)
    then candidate else current
  else current.

(** The first date value the script looks at, if any, is a date. *)
Definition first_date_parseable (Date_parse : string → option Z)
    (articles : list record) : Prop :=
  match present_dates articles with
  | [] => True
  | d :: _ => is_Some (Date_of Date_parse d)
  end.

(** A completion that ends the run with a non-zero exit status: an
    exception on its way to the [catch] block, or [process.exit(1)]. *)
Definition failed {A} (c : completion A) : Prop :=
  match c with
  | Return _ => False
  | Throw _ => True
  | Exit code => code = 1
  end.

(** A piece of script that never calls [process.exit]. *)
Definition no_exit {A} (c : M A) : Prop :=
  ∀ w, match (c w).1 with Exit _ => False | _ => True end.

(** An environment for evaluating the driver on concrete inputs: a
    stand-in for [JSON.parse] that knows the texts of the empty object and
    of the empty array and rejects everything else, a constant clock, and
    a file system in which every path is writable. *)
Definition example_parse (text : string) : parse_result :=
  if decide (text = "{}") then Parsed (PObject [])
  else if decide (text = "[]") then Parsed (PArray [])
  else SyntaxError "Unexpected token".

Definition example_run (w : world) : Z * world :=
  run iso_date_parse example_parse (fun _ => "{}")
    (fun _ => "2024-01-01T00:00:00.000Z") (fun _ => true) "data" w.

Definition example_world (input : option string) : world :=
  {| files := match input with
              | Some text => {[ "data/articles.json" := text ]}
              | None => ∅
              end;
     stdout := []; stderr := []; ticks := 0 |}.

(** The number a tally object holds under a name; 0 when it holds none. *)
Definition entry (o : plain_object) (k : string) : Z :=
  match o !! k with
  | Some (VNum n) => n
  | _ => 0
  end.

(** The world in which the [try] block starts to read the input: the two
    progress lines of lines 130 and 141 have been printed. *)
Definition reading (w : world) : world :=
  {| files := files w;
     stdout := (stdout w ++ ["Starting Knowledge Base data export..."])
               ++ ["Reading articles data..."];
     stderr := stderr w;
     ticks := ticks w |}.

(** A piece of script that leaves every file outside [paths] as it was. *)
Definition writes_only (paths : list string) {A} (c : M A) : Prop :=
  ∀ w p, p ∉ paths → files (c w).2 !! p = files w !! p.

(** A piece of script that calls [process.exit] with status 1 only. *)
Definition exits_one {A} (c : M A) : Prop :=
  ∀ w, match (c w).1 with Exit code => code = 1 | _ => True end.

(** The line [logExport] writes (line 117), without its final line feed. *)
Definition log_line (timestamp operation status details : string) : string :=
  "[" +:+ timestamp +:+ "] " +:+ operation +:+ ": " +:+ status +:+
  (if decide (details = "") then "" else " - " +:+ details).

(** The text [jsonToCsv] returns on an array of records. *)
Definition rendered (articles : list record) : string :=
  match articles with
  | [] => ""
  | first :: _ =>
      join (str newline)
        (join "," (Object_keys first)
         :: map (csv_row (Object_keys first)) articles)
  end.

(** A second environment for evaluating the driver: a stand-in for
    [JSON.parse] that knows the texts of an array holding one empty object
    and of the scalar false, a clock that reads its own count, and a file
    system whose permissions are given. *)
Definition sample_parse (text : string) : parse_result :=
  if decide (text = "[{}]") then Parsed (PArray [[]])
  else if decide (text = "false") then Parsed (PScalar (SBool false))
  else SyntaxError "Unexpected token".

Definition sample_clock (n : nat) : string :=
  "T" +:+ Number_toString (Z.of_nat n).

Definition sample_run (writable : string → bool) (w : world) : Z * world :=
  run iso_date_parse sample_parse (fun _ => "{}") sample_clock writable "data" w.

Definition sample_world (text : string) : world :=
  {| files := {[ "data/articles.json" := text ]};
     stdout := []; stderr := []; ticks := 0 |}.

(** Permissions under which everything but the given path can be written. *)
Definition all_but (path : string) (p : string) : bool :=
  negb (String.eqb p path).

(** * Properties *)

(** ** Strings *)

#[local] Arguments Ascii.eqb : simpl never.

Lemma append_nil_l (s : string) : "" +:+ s = s.
Proof. reflexivity. Qed.

Lemma append_cons (c : ascii) (s t : string) : String c s +:+ t = String c (s +:+ t).
Proof. reflexivity. Qed.

Lemma append_nil_r (s : string) : s +:+ "" = s.
Proof. induction s as [|c s IH]; [done | by rewrite append_cons, IH]. Qed.

Lemma append_assoc (s t u : string) : (s +:+ t) +:+ u = s +:+ t +:+ u.
Proof. induction s as [|c s IH]; [done | by rewrite !append_cons, IH]. Qed.

Ltac string_simpl := rewrite ?append_cons, ?append_nil_l; simpl.

Lemma append_snoc (s : string) (c : ascii) (t : string) :
  (s +:+ str c) +:+ t = s +:+ String c t.
Proof. by rewrite append_assoc. Qed.

Lemma includes_char (s : string) (c : ascii) : includes s (str c) = occurs c s.
Proof.
  induction s as [|a s IH]; simpl; [done |].
  rewrite IH. destruct (ascii_dec c a) as [->|Hne].
  - rewrite Ascii.eqb_refl. by destruct s.
  - apply Ascii.eqb_neq in Hne. by rewrite Hne.
Qed.

Lemma occurs_replace_quotes (c : ascii) (s : string) :
  occurs c (replace_quotes s) = occurs c s.
Proof.
  induction s as [|a s IH]; simpl; [done |].
  destruct (Ascii.eqb a dquote) eqn:Ha; simpl; rewrite IH.
  - apply Ascii.eqb_eq in Ha. subst a. by destruct (Ascii.eqb c dquote).
  - done.
Qed.

Lemma replace_quotes_plain (s : string) :
  occurs dquote s = false → replace_quotes s = s.
Proof.
  induction s as [|a s IH]; simpl; [done |].
  intros [Ha Hs]%orb_false_elim. rewrite Ascii.eqb_sym, Ha. by rewrite IH.
Qed.

Lemma csv_cell_unfold (v : value) :
  csv_cell v =
    match v with
    | VNull | VUndefined => ""
    | _ => if special (String_ v) then csv_quote (String_ v) else String_ v
    end.
Proof.
  assert (∀ s, (if includes (replace_quotes s) (str comma)
                   || includes (replace_quotes s) (str dquote)
                   || includes (replace_quotes s) (str newline)
                then str dquote +:+ replace_quotes s +:+ str dquote
                else replace_quotes s)
               = if special s then csv_quote s else s) as Hs.
  { intros s. rewrite !includes_char, !occurs_replace_quotes. unfold special.
    destruct (occurs comma s) eqn:H1, (occurs dquote s) eqn:H2,
      (occurs newline s) eqn:H3; simpl; try done.
    by apply replace_quotes_plain. }
  unfold csv_cell. destruct v as [| |b|n|s|name|].
  - reflexivity.
  - reflexivity.
  - exact (Hs (String_ (VBool b))).
  - exact (Hs (String_ (VNum n))).
  - exact (Hs s).
  - exact (Hs (String_ (VNative name))).
  - exact (Hs (String_ VObjectPrototype)).
Qed.

(** ** The RFC 4180 reader on what the script writes *)

Import Rfc4180.

#[local] Arguments textdata : simpl never.

Lemma textdata_eqb (c a : ascii) :
  textdata c = true → textdata a = false → Ascii.eqb c a = false.
Proof.
  intros Hc Ha. destruct (Ascii.eqb c a) eqn:E; [| done].
  apply Ascii.eqb_eq in E. subst a. congruence.
Qed.

Lemma read_quoted_body (t : string) : ∀ field fields rest,
  field_text t = true →
  read Quoted field fields (replace_quotes t +:+ String dquote rest)
  = read QuoteSeen (field +:+ t) fields rest.
Proof.
  induction t as [|c t IH]; intros field fields rest Ht.
  - by rewrite append_nil_r.
  - unfold field_text in Ht. cbn [all_chars] in Ht.
    apply andb_true_iff in Ht as [Hc Ht].
    rewrite <- (append_snoc field c t), <- IH by done. simpl replace_quotes.
    destruct (Ascii.eqb c dquote) eqn:Hd; string_simpl.
    + apply Ascii.eqb_eq in Hd. by subst c.
    + rewrite orb_false_r in Hc. by rewrite Hd, Hc.
Qed.

Lemma special_cons (c : ascii) (t : string) :
  special (String c t) = false →
  Ascii.eqb c comma = false ∧ Ascii.eqb c dquote = false
  ∧ Ascii.eqb c newline = false ∧ special t = false.
Proof.
  unfold special. simpl. rewrite !(Ascii.eqb_sym c).
  destruct (Ascii.eqb comma c), (Ascii.eqb dquote c), (Ascii.eqb newline c),
    (occurs comma t), (occurs dquote t), (occurs newline t); simpl; intros H;
    try discriminate H; done.
Qed.

Lemma occurs_cons_false (a c : ascii) (t : string) :
  occurs a (String c t) = false → Ascii.eqb c a = false ∧ occurs a t = false.
Proof.
  simpl. rewrite (Ascii.eqb_sym c a). by intros [? ?]%orb_false_elim.
Qed.

(** A text the script leaves unquoted, with no carriage return, is made of
    TEXTDATA when it is made of field characters. *)
Lemma field_text_cons (c : ascii) (t : string) :
  field_text (String c t) = true → special (String c t) = false →
  occurs carriage_return (String c t) = false →
  Ascii.eqb c comma = false ∧ textdata c = true
  ∧ field_text t = true ∧ special t = false
  ∧ occurs carriage_return t = false.
Proof.
  intros Hf (Hc & Hd & Hn & Ht)%special_cons [Hr Hcr]%occurs_cons_false.
  unfold field_text in Hf. cbn [all_chars] in Hf.
  apply andb_true_iff in Hf as [Hch Hf].
  unfold quoted_char in Hch. rewrite Hc, Hd, Hn, Hr, !orb_false_r in Hch.
  done.
Qed.

Lemma read_unquoted_body (t : string) : ∀ field fields rest,
  field_text t = true → special t = false →
  occurs carriage_return t = false →
  read Unquoted field fields (t +:+ rest)
  = read Unquoted (field +:+ t) fields rest.
Proof.
  induction t as [|c t IH]; intros field fields rest Hf Ht Hcr.
  - by rewrite append_nil_r.
  - destruct (field_text_cons c t Hf Ht Hcr) as (Hc & Htd & Hf' & Ht' & Hcr').
    rewrite <- (append_snoc field c t), <- IH by done. string_simpl.
    by rewrite Hc, Htd.
Qed.

(** A rendered cell, followed by the end of the row or by a comma, reads
    back to the text of the value. *)
Lemma read_cell (v : value) (f : follow) (fields : list string) :
  readable (cell_text v) = true →
  read FieldStart "" fields (csv_cell v +:+ follow_text f)
  = follow_read f (fields ++ [cell_text v]).
Proof.
  intros Hsafe.
  assert (read FieldStart "" fields (follow_text f)
          = follow_read f (fields ++ [""])) as He.
  { destruct f as [|rest]; [done |]. simpl. by rewrite ?Ascii.eqb_refl. }
  assert (∀ t, read QuoteSeen t fields (follow_text f)
               = follow_read f (fields ++ [t])) as Hq.
  { intros t. destruct f as [|rest]; [done |]. simpl.
    by rewrite ?Ascii.eqb_refl. }
  assert (∀ t, read Unquoted t fields (follow_text f)
               = follow_read f (fields ++ [t])) as Hu.
  { intros t. destruct f as [|rest]; [done |]. simpl.
    by rewrite ?Ascii.eqb_refl. }
  assert (∀ s, readable s = true →
               read FieldStart "" fields
                 ((if special s then csv_quote s else s) +:+ follow_text f)
               = follow_read f (fields ++ [s])) as Hs.
  { intros s [Hf Hcr]%andb_true_iff. unfold no_bare_cr in Hcr.
    destruct (special s) eqn:Hsp.
    - unfold csv_quote, str. rewrite !append_assoc. string_simpl.
      rewrite read_quoted_body by done. apply Hq.
    - simpl in Hcr. apply negb_true_iff in Hcr.
      destruct s as [|c s]; [apply He |].
      destruct (field_text_cons c s Hf Hsp Hcr) as (Hc & Htd & Hf' & Ht' & Hcr').
      string_simpl.
      rewrite (textdata_eqb c dquote Htd eq_refl), Hc, Htd.
      rewrite read_unquoted_body by done.
      apply Hu. }
  rewrite csv_cell_unfold.
  destruct v as [| |b|n|s|name|]; try apply He.
  - apply (Hs (String_ (VBool b)) Hsafe).
  - apply (Hs (String_ (VNum n)) Hsafe).
  - apply (Hs s Hsafe).
  - apply (Hs (String_ (VNative name)) Hsafe).
  - apply (Hs (String_ VObjectPrototype) Hsafe).
Qed.

Lemma read_cells (vs : list value) : ∀ fields,
  vs ≠ [] →
  Forall (fun v => readable (cell_text v) = true) vs →
  read FieldStart "" fields (join "," (map csv_cell vs))
  = Some (fields ++ map cell_text vs).
Proof.
  induction vs as [|v vs IH]; intros fields Hne Hcr; [done |].
  apply Forall_cons in Hcr as [Hv Hcr].
  destruct vs as [|v' vs].
  - simpl. rewrite <- (append_nil_r (csv_cell v)).
    by apply (read_cell v AtEnd).
  - change (join "," (map csv_cell (v :: v' :: vs)))
      with (csv_cell v +:+ follow_text (AtComma (join "," (map csv_cell (v' :: vs))))).
    rewrite read_cell by done. simpl follow_read. rewrite IH by done.
    by rewrite <- app_assoc.
Qed.

(** Reading back a rendered row yields the text of every cell, when every
    cell's text can be carried by a field the way the script writes it. *)
Lemma parse_csv_row (headers : list string) (article : record) :
  headers ≠ [] →
  (∀ header, header ∈ headers →
             readable (cell_text (Get article header)) = true) →
  parse_record (csv_row headers article)
  = Some (map (fun header => cell_text (Get article header)) headers).
Proof.
  intros Hne Hcr. unfold parse_record, csv_row.
  rewrite <- (map_map (Get article) csv_cell).
  rewrite read_cells.
  - by rewrite map_map.
  - by destruct headers.
  - apply Forall_forall. intros v (header & -> & Hin)%list_elem_of_fmap.
    by apply Hcr.
Qed.

(** A line of TEXTDATA and commas reads back to one field more than it
    has commas. *)
Lemma read_plain_line (line : string) : ∀ st field fields,
  plain_name line = true →
  st = FieldStart ∨ st = Unquoted →
  ∃ columns,
    read st field fields line = Some columns
    ∧ length columns = (length fields + 1 + count_char comma line)%nat.
Proof.
  induction line as [|c line IH]; intros st field fields Hp Hst.
  - exists (fields ++ [field]). split.
    + by destruct Hst as [-> | ->].
    + rewrite length_app. simpl. lia.
  - unfold plain_name in Hp. cbn [all_chars] in Hp.
    apply andb_true_iff in Hp as [Hc Hp].
    cbn [count_char]. rewrite (Ascii.eqb_sym comma c).
    destruct (Ascii.eqb c comma) eqn:Hcomma.
    + destruct (IH FieldStart "" (fields ++ [if st is FieldStart then "" else field])
                  Hp (or_introl eq_refl)) as (columns & Hread & Hlen).
      exists columns. split.
      * apply Ascii.eqb_eq in Hcomma. subst c.
        destruct Hst as [-> | ->]; exact Hread.
      * rewrite Hlen, length_app. simpl. lia.
    + rewrite orb_false_r in Hc.
      destruct (IH Unquoted (if st is FieldStart then str c else field +:+ str c)
                  fields Hp (or_intror eq_refl))
        as (columns & Hread & Hlen).
      exists columns. split.
      * destruct Hst as [-> | ->]; cbn [read];
          by rewrite ?(textdata_eqb c dquote Hc eq_refl), Hcomma, Hc.
      * rewrite Hlen. lia.
Qed.

Lemma all_chars_append (p : ascii → bool) (s t : string) :
  all_chars p (s +:+ t) = all_chars p s && all_chars p t.
Proof.
  induction s as [|a s IH]; [done |].
  rewrite append_cons. cbn [all_chars]. by rewrite IH, andb_assoc.
Qed.

Lemma count_char_append (c : ascii) (s t : string) :
  count_char c (s +:+ t) = (count_char c s + count_char c t)%nat.
Proof.
  induction s as [|a s IH]; [done |].
  rewrite append_cons. cbn [count_char]. rewrite IH. lia.
Qed.

Lemma concat_cons (sep x y : string) (rest : list string) :
  String.concat sep (x :: y :: rest) = x +:+ sep +:+ String.concat sep (y :: rest).
Proof. reflexivity. Qed.

(** The header line has the characters of the names and one comma between
    two names. *)
Lemma plain_header (names : list string) :
  Forall (fun name => plain_name name = true) names →
  plain_name (String.concat "," names) = true.
Proof.
  induction 1 as [|name names Hname Hnames IH]; [done |].
  destruct names as [|name' names]; [done |].
  rewrite concat_cons. unfold plain_name in *.
  rewrite !all_chars_append, Hname, IH. reflexivity.
Qed.

Lemma count_commas_header (names : list string) :
  names ≠ [] →
  count_char comma (String.concat "," names)
  = (length names - 1 + commas_in names)%nat.
Proof.
  induction names as [|name names IH]; intros Hne; [done |].
  destruct names as [|name' names].
  - simpl. lia.
  - rewrite concat_cons, !count_char_append, IH by done.
    cbn [commas_in foldr length count_char]. simpl. lia.
Qed.

(** ** [jsonToCsv] on an array of records *)

(** On a non-empty array the script never throws: the result is the header
    line followed by one line per record. *)
Lemma jsonToCsv_array (first : record) (rest : list record) :
  jsonToCsv (PArray (first :: rest))
  = Return (join (str newline)
              (join "," (Object_keys first)
               :: map (csv_row (Object_keys first)) (first :: rest))).
Proof. reflexivity. Qed.

Lemma csv_cell_null (article : record) (header : string) :
  own article header = Some SNull → csv_cell (Get article header) = "".
Proof. intros H. unfold Get. by rewrite H. Qed.

Lemma csv_cell_missing (article : record) (header : string) :
  own article header = None → ¬ inherited header →
  csv_cell (Get article header) = "".
Proof.
  intros H Hin. unfold Get. rewrite H.
  unfold inherited in Hin. apply dec_stable in Hin. by rewrite Hin.
Qed.

(** A row is a function of the record's values at the header names only:
    whatever else the record holds does not reach the output. *)
Lemma csv_row_extra_fields (headers : list string) (a b : record) :
  (∀ header, header ∈ headers → own a header = own b header) →
  csv_row headers a = csv_row headers b.
Proof.
  intros H. unfold csv_row. f_equal. apply map_ext_in.
  intros header Hin%list_elem_of_In. unfold Get. by rewrite H.
Qed.

(** The output of [jsonToCsv] on a non-empty array, line by line: the
    header line, then one line per record, with a line feed between two
    lines. *)
Lemma jsonToCsv_lines (first : record) (rest : list record) :
  jsonToCsv (PArray (first :: rest))
  = Return (String.concat (str newline)
              (String.concat "," (Object_keys first)
               :: map (csv_row (Object_keys first)) (first :: rest))).
Proof. apply jsonToCsv_array. Qed.

(** C8. [jsonToCsv] applied to the empty array returns the empty string:
    no header line, no rows, and no exception. *)
Theorem jsonToCsv_empty : jsonToCsv (PArray []) = Return "".
Proof. reflexivity. Qed.


(** C10. The header row is not escaped.  For every non-empty input the
    output is the first record's field names joined with commas as they
    are, a line feed, and the data rows.  So, for names made of TEXTDATA
    and commas, the header line read back as an RFC 4180 record has one
    column more per comma inside a name, while a data row has one field
    per name: they disagree as soon as a name holds a comma.  For
    the name [a,b] the header line is not the RFC 4180 rendering of the
    name and reads back as two columns against one in the data row; for a
    name with a double quote the header line is no RFC 4180 record. *)
Theorem csv_header_not_escaped :
  (∀ (first : record) (rest : list record),
     jsonToCsv (PArray (first :: rest))
     = Return (String.concat "," (Object_keys first) +:+ str newline
               +:+ String.concat (str newline)
                     (map (csv_row (Object_keys first)) (first :: rest))))
  ∧ (∀ (first article : record),
       Object_keys first ≠ [] →
       Forall (fun name => plain_name name = true) (Object_keys first) →
       (∀ name, name ∈ Object_keys first →
                readable (cell_text (Get article name)) = true) →
       ∃ columns fields,
         Rfc4180.parse_record (String.concat "," (Object_keys first))
         = Some columns
         ∧ Rfc4180.parse_record (csv_row (Object_keys first) article)
           = Some fields
         ∧ length fields = length (Object_keys first)
         ∧ length columns
           = (length (Object_keys first) + commas_in (Object_keys first))%nat)
  ∧ (jsonToCsv (PArray [[("a,b", SStr "x")]])
     = Return ("a,b" +:+ str newline +:+ "x")
     ∧ "a,b" ≠ csv_quote "a,b"
     ∧ Rfc4180.parse_record "a,b" = Some ["a"; "b"]
     ∧ Rfc4180.parse_record "x" = Some ["x"])
  ∧ (jsonToCsv (PArray [[("a" +:+ str dquote +:+ "b", SStr "x")]])
     = Return ("a" +:+ str dquote +:+ "b" +:+ str newline +:+ "x")
     ∧ Rfc4180.parse_record ("a" +:+ str dquote +:+ "b") = None).
Proof.
  split; [| split; [| split]].
  - intros first rest. rewrite jsonToCsv_lines. reflexivity.
  - intros first article Hne Hplain Hcr.
    set (names := Object_keys first) in *.
    destruct (read_plain_line (String.concat "," names) FieldStart "" [])
      as (columns & Hread & Hlen); [by apply plain_header | by left |].
    exists columns, (map (fun header => cell_text (Get article header)) names).
    split; [exact Hread |].
    split; [by apply parse_csv_row |].
    split; [by rewrite length_map |].
    rewrite Hlen, count_commas_header by done.
    destruct names; [done |]. simpl. lia.
  - repeat split. discriminate.
  - repeat split.
Qed.

(** C4, the defect.  The first record owns a field named [constructor],
    the second record has no field at all; its cell is not empty but the
    source text of the inherited [Object.prototype.constructor]. *)
Theorem csv_missing_field_inherited :
  own [] "constructor" = None
  ∧ csv_row ["constructor"] [] = "function Object() { [native code] }"
  ∧ jsonToCsv (PArray [[("constructor", SStr "x")]; []])
    = Return ("constructor" +:+ str newline +:+ "x" +:+ str newline
              +:+ "function Object() { [native code] }").
Proof. repeat split. Qed.

(** ** [generateSummary] on an array of records *)

Section SummaryProperties.

Variable Date_parse : string → option Z.

Lemma generateSummary_array (now : string) (articles : list record) :
  generateSummary Date_parse now (PArray articles)
  = Return (summarize Date_parse now articles).
Proof. reflexivity. Qed.

(** The callback updates every part of the summary on its own, so the
    loop splits into one fold per part. *)
Lemma fold_tally_article (articles : list record) : ∀ s : Summary,
  let s' := fold_left (tally_article Date_parse) articles s in
  totalArticles s' = totalArticles s
  ∧ (∀ c, tally c s'
          = fold_left (fun o a => count o (Get a (field_name c))) articles (tally c s))
  ∧ (∀ f, counter f s'
          = fold_left (fun n a => count_if (Get a (flag_name f)) n) articles (counter f s))
  ∧ earliest s'
    = fold_left (track_earliest Date_parse)
        (map (fun a => Get a "createdDate") articles) (earliest s)
  ∧ latest s'
    = fold_left (track_latest Date_parse)
        (map (fun a => Get a "createdDate") articles) (latest s).
Proof.
  induction articles as [|a articles IH]; intros s; simpl.
  - repeat split; done.
  - destruct (IH (tally_article Date_parse s a)) as (Ht & Hc & Hf & He & Hl).
    repeat split.
    + by rewrite Ht.
    + intros c. rewrite Hc. by destruct c.
    + intros f. rewrite Hf. by destruct f.
    + by rewrite He.
    + by rewrite Hl.
Qed.

Lemma summarize_total (now : string) (articles : list record) :
  totalArticles (summarize Date_parse now articles)
  = VNum (Z.of_nat (length articles)).
Proof. unfold summarize. by rewrite (proj1 (fold_tally_article _ _)). Qed.

Lemma summarize_tally (now : string) (articles : list record) (c : categorical) :
  tally c (summarize Date_parse now articles)
  = fold_left (fun o a => count o (Get a (field_name c))) articles ∅.
Proof.
  unfold summarize.
  destruct (fold_tally_article articles
              (initial_summary now (VNum (Z.of_nat (length articles)))))
    as (_ & Hc & _).
  rewrite Hc. by destruct c.
Qed.

Lemma summarize_counter (now : string) (articles : list record) (f : visibility) :
  counter f (summarize Date_parse now articles)
  = fold_left (fun n a => count_if (Get a (flag_name f)) n) articles 0.
Proof.
  unfold summarize.
  destruct (fold_tally_article articles
              (initial_summary now (VNum (Z.of_nat (length articles)))))
    as (_ & _ & Hf & _).
  rewrite Hf. by destruct f.
Qed.

Lemma summarize_earliest (now : string) (articles : list record) :
  earliest (summarize Date_parse now articles)
  = fold_left (track_earliest Date_parse)
      (map (fun a => Get a "createdDate") articles) VNull.
Proof.
  unfold summarize.
  by destruct (fold_tally_article articles
              (initial_summary now (VNum (Z.of_nat (length articles)))))
    as (_ & _ & _ & -> & _).
Qed.

Lemma summarize_latest (now : string) (articles : list record) :
  latest (summarize Date_parse now articles)
  = fold_left (track_latest Date_parse)
      (map (fun a => Get a "createdDate") articles) VNull.
Proof.
  unfold summarize.
  by destruct (fold_tally_article articles
              (initial_summary now (VNum (Z.of_nat (length articles)))))
    as (_ & _ & _ & _ & ->).
Qed.

End SummaryProperties.

(** *** Categorical tallies *)

Lemma occurrences_snoc (field k : string) (articles : list record) (a : record) :
  occurrences field k (articles ++ [a])
  = (occurrences field k articles + if decide (bucket field a = k) then 1 else 0)%nat.
Proof.
  unfold occurrences. rewrite filter_app, length_app. f_equal.
  rewrite filter_cons, filter_nil. by case_decide.
Qed.

Lemma plain_get_iter (o : plain_object) (k : string) (n : nat) :
  o !! k = match n with
           | O => None
           | S _ => Some (Nat.iter n or_zero_plus_one (ObjectPrototype_get k))
           end →
  plain_get o k = Nat.iter n or_zero_plus_one (ObjectPrototype_get k).
Proof. intros H. unfold plain_get. rewrite H. by destruct n. Qed.

(** The value a tally object holds for a property name is determined by
    how many records were counted under that name. *)
Lemma tally_lookup (field : string) (articles : list record) (k : string) :
  fold_left (fun o a => count o (Get a field)) articles ∅ !! k
  = if decide (k = "__proto__") then None
    else match occurrences field k articles with
         | O => None
         | S n => Some (Nat.iter (S n) or_zero_plus_one (ObjectPrototype_get k))
         end.
Proof.
  induction articles as [|a articles IH] using rev_ind.
  - simpl. rewrite lookup_empty. by case_decide.
  - rewrite fold_left_app, occurrences_snoc. cbn [fold_left].
    set (o := fold_left (fun o a => count o (Get a field)) articles ∅) in *.
    unfold count, plain_set. fold (bucket field a).
    destruct (decide (k = "__proto__")) as [Hk|Hk].
    { case_decide; [done | rewrite lookup_insert_ne; [done | congruence]]. }
    destruct (decide (bucket field a = k)) as [Ha|Ha].
    + rewrite decide_False by congruence. subst k.
      rewrite lookup_insert_eq, Nat.add_1_r.
      rewrite (plain_get_iter o _ (occurrences field (bucket field a) articles)).
      2:{ rewrite IH. by destruct (occurrences field (bucket field a) articles). }
      done.
    + rewrite Nat.add_0_r, <- IH. case_decide; [done |].
      by rewrite lookup_insert_ne.
Qed.

(** For a name that is not inherited the value is the number of records. *)
Lemma iter_count (n : nat) :
  Nat.iter (S n) or_zero_plus_one VUndefined = VNum (Z.of_nat (S n)).
Proof.
  induction n as [|n IH]; [done |].
  rewrite Nat.iter_succ, IH. unfold or_zero_plus_one, truthy.
  destruct (Z.eqb_spec (Z.of_nat (S n)) 0) as [E|_]; [lia |].
  simpl negb. cbv iota. f_equal. lia.
Qed.

Lemma tally_lookup_count (field : string) (articles : list record) (k : string) :
  ¬ inherited k →
  fold_left (fun o a => count o (Get a field)) articles ∅ !! k
  = match occurrences field k articles with
    | O => None
    | S n => Some (VNum (Z.of_nat (S n)))
    end.
Proof.
  intros Hk. rewrite tally_lookup.
  assert (ObjectPrototype_get k = VUndefined) as Hu.
  { unfold inherited in Hk. by apply dec_stable in Hk. }
  rewrite decide_False.
  2:{ intros ->. by apply Hk. }
  destruct (occurrences field k articles); [done |].
  by rewrite Hu, iter_count.
Qed.

Lemma occurrences_Permutation (field k : string) (l l' : list record) :
  l ≡ₚ l' → occurrences field k l = occurrences field k l'.
Proof. intros H. unfold occurrences. by rewrite H. Qed.

Lemma occurrences_elem (field : string) (l : list record) (a : record) :
  a ∈ l → (1 ≤ occurrences field (bucket field a) l)%nat.
Proof.
  intros Ha. unfold occurrences.
  assert (a ∈ filter (fun article => bucket field article = bucket field a) l) as Hin.
  { by apply list_elem_of_filter. }
  destruct (filter _ l); [by apply not_elem_of_nil in Hin | simpl; lia].
Qed.

Lemma tally_Permutation (field : string) (l l' : list record) :
  l ≡ₚ l' →
  fold_left (fun o a => count o (Get a field)) l ∅
  = fold_left (fun o a => count o (Get a field)) l' ∅.
Proof.
  intros H. apply map_eq. intros k.
  by rewrite !tally_lookup, (occurrences_Permutation field k l l' H).
Qed.

(** The sum of a tally object when no record falls under an inherited
    name: every record adds exactly one. *)
Lemma add_tally_comm (j1 j2 : string) (z1 z2 : value) (y : option Z) :
  add_tally j1 z1 (add_tally j2 z2 y) = add_tally j2 z2 (add_tally j1 z1 y).
Proof. destruct z1, z2, y; simpl; try done. f_equal. lia. Qed.

Lemma tally_sum_insert (o : plain_object) (k : string) (n : Z) (total : Z) :
  o !! k = None → tally_sum o = Some total →
  tally_sum (<[k := VNum n]> o) = Some (n + total).
Proof.
  intros Hk Ho. unfold tally_sum in *.
  rewrite map_fold_insert_L; [by rewrite Ho | | done].
  intros. apply add_tally_comm.
Qed.

Lemma tally_sum_update (o : plain_object) (k : string) (m n : Z) (total : Z) :
  o !! k = Some (VNum m) → tally_sum o = Some total →
  tally_sum (<[k := VNum n]> o) = Some (total - m + n).
Proof.
  intros Hk Ho. unfold tally_sum in *.
  rewrite (map_fold_delete_L add_tally _ k (VNum m) o) in Ho; [| | done].
  2:{ intros. apply add_tally_comm. }
  rewrite <- insert_delete_eq.
  rewrite map_fold_insert_L; [| | apply lookup_delete_eq].
  2:{ intros. apply add_tally_comm. }
  destruct (map_fold add_tally (Some 0) (delete k o)) as [z|]; simpl in *;
    [| done].
  injection Ho as <-. f_equal. lia.
Qed.

Lemma tally_sum_total (field : string) (articles : list record) :
  (∀ a, a ∈ articles → ¬ inherited (bucket field a)) →
  tally_sum (fold_left (fun o a => count o (Get a field)) articles ∅)
  = Some (Z.of_nat (length articles)).
Proof.
  induction articles as [|a articles IH] using rev_ind; intros Hin.
  - done.
  - rewrite fold_left_app, length_app. cbn [fold_left].
    assert (¬ inherited (bucket field a)) as Ha.
    { apply Hin. set_solver. }
    specialize (IH (fun b Hb => Hin b ltac:(set_solver))).
    pose proof (tally_lookup_count field articles _ Ha) as Hk.
    set (o := fold_left (fun o a => count o (Get a field)) articles ∅) in *.
    unfold count, plain_set, plain_get. fold (bucket field a).
    rewrite decide_False.
    2:{ intros E. apply Ha. by rewrite E. }
    rewrite Hk. destruct (occurrences field (bucket field a) articles) as [|n].
    + assert (ObjectPrototype_get (bucket field a) = VUndefined) as ->.
      { unfold inherited in Ha. by apply dec_stable in Ha. }
      change (or_zero_plus_one VUndefined) with (VNum 1).
      rewrite (tally_sum_insert o _ 1 _ Hk IH). f_equal. simpl length. lia.
    + replace (or_zero_plus_one (VNum (Z.of_nat (S n))))
        with (VNum (Z.of_nat (S n) + 1)).
      2:{ unfold or_zero_plus_one, truthy.
          by destruct (Z.eqb_spec (Z.of_nat (S n)) 0) as [E|_]; [lia |]. }
      rewrite (tally_sum_update o _ _ _ _ Hk IH). f_equal. simpl length. lia.
Qed.

(** *** Visibility counters *)

Lemma count_flags (flag : string) (articles : list record) : ∀ z,
  fold_left (fun n a => count_if (Get a flag) n) articles z
  = z + Z.of_nat (length (filter (fun a => truthy (Get a flag) = true) articles)).
Proof.
  induction articles as [|a articles IH]; intros z; cbn [fold_left].
  - rewrite filter_nil. simpl. lia.
  - rewrite IH, filter_cons. unfold count_if.
    destruct (truthy (Get a flag)).
    + rewrite decide_True by done. simpl length. lia.
    + rewrite decide_False by done. done.
Qed.

Lemma count_flags_bound (flag : string) (articles : list record) :
  0 ≤ fold_left (fun n a => count_if (Get a flag) n) articles 0
    ≤ Z.of_nat (length articles).
Proof.
  rewrite count_flags.
  pose proof (length_filter (fun a => truthy (Get a flag) = true) articles).
  lia.
Qed.

Lemma count_flags_Permutation (flag : string) (l l' : list record) :
  l ≡ₚ l' →
  fold_left (fun n a => count_if (Get a flag) n) l 0
  = fold_left (fun n a => count_if (Get a flag) n) l' 0.
Proof. intros H. rewrite !count_flags. by rewrite H. Qed.

(** *** Date range *)

Lemma fold_track_present (time : value → option Z) (cs : list value) : ∀ cur,
  fold_left (track time) cs cur
  = fold_left (track time) (filter (fun v => truthy v = true) cs) cur.
Proof.
  induction cs as [|c cs IH]; intros cur; [done |].
  rewrite filter_cons. cbn [fold_left]. destruct (truthy c) eqn:Hc.
  - rewrite decide_True by done. cbn [fold_left]. apply IH.
  - rewrite decide_False by done. rewrite <- IH. f_equal.
    unfold track. by rewrite Hc.
Qed.

Lemma track_first (time : value → option Z) (d : value) :
  truthy d = true → track time VNull d = d.
Proof. intros Hd. unfold track. by rewrite Hd. Qed.

(** Once the endpoint is a date, it stays one, and it is the smallest of
    the dates seen. *)
Lemma fold_track_valid (time : value → option Z) (ds : list value) :
  Forall (fun v => truthy v = true) ds →
  ∀ cur t, truthy cur = true → time cur = Some t →
    ∃ m, time (fold_left (track time) ds cur) = Some m
         ∧ fold_left (track time) ds cur ∈ cur :: ds
         ∧ m ≤ t
         ∧ ∀ d t', d ∈ ds → time d = Some t' → m ≤ t'.
Proof.
  induction 1 as [|d ds Hd Hds IH]; intros cur t Hcur Ht.
  - exists t. split; [done |]. split; [by apply elem_of_cons; left |].
    split; [lia |].
    intros d t' Hd. by apply not_elem_of_nil in Hd.
  - cbn [fold_left].
    assert (track time cur d = if Date_lt (time d) (Some t) then d else cur) as ->.
    { unfold track. by rewrite Hd, Hcur, Ht. }
    destruct (time d) as [td|] eqn:Htd; simpl Date_lt.
    + destruct (Z.ltb_spec td t) as [Hlt|Hge]; cbv iota.
      * destruct (IH d td Hd Htd) as (m & Hm & Hin & Hle & Hall).
        exists m. split; [done |].
        split; [rewrite !elem_of_cons in *; tauto |]. split; [lia |].
        intros d' t' [->|Hd']%elem_of_cons Ht'; [| by eapply Hall].
        rewrite Htd in Ht'. injection Ht' as <-. done.
      * destruct (IH cur t Hcur Ht) as (m & Hm & Hin & Hle & Hall).
        exists m. split; [done |].
        split; [rewrite !elem_of_cons in *; tauto |]. split; [lia |].
        intros d' t' [->|Hd']%elem_of_cons Ht'; [| by eapply Hall].
        rewrite Htd in Ht'. injection Ht' as <-. lia.
    + cbv iota. destruct (IH cur t Hcur Ht) as (m & Hm & Hin & Hle & Hall).
      exists m. split; [done |].
        split; [rewrite !elem_of_cons in *; tauto |]. split; [lia |].
      intros d' t' [->|Hd']%elem_of_cons Ht'; [| by eapply Hall].
      rewrite Htd in Ht'. discriminate Ht'.
Qed.

(** Once the endpoint is not a date, nothing replaces it: every
    comparison with it is false. *)
Lemma fold_track_stuck (time : value → option Z) (ds : list value) (cur : value) :
  truthy cur = true → time cur = None →
  fold_left (track time) ds cur = cur.
Proof.
  intros Hcur Hnone. induction ds as [|d ds IH]; [done |].
  cbn [fold_left].
  assert (track time cur d = cur) as ->; [| done].
  unfold track. rewrite Hcur, Hnone.
  destruct (truthy d); [| done]. by destruct (time d).
Qed.

(** The endpoint after the loop, from the initial [null]. *)
Lemma fold_track_endpoint (time : value → option Z) (cs : list value) :
  let ds := filter (fun v => truthy v = true) cs in
  let r := fold_left (track time) cs VNull in
  match ds with
  | [] => r = VNull
  | first :: _ =>
      ∀ t, time first = Some t →
        ∃ m, time r = Some m ∧ r ∈ ds
             ∧ ∀ d t', d ∈ ds → time d = Some t' → m ≤ t'
  end.
Proof.
  intros ds r. unfold r. rewrite fold_track_present. fold ds.
  assert (Forall (fun v => truthy v = true) ds) as Hds.
  { apply Forall_forall. intros v Hv. by apply list_elem_of_filter in Hv as [? _]. }
  destruct ds as [|first ds]; [done |].
  intros t Ht. apply Forall_cons in Hds as [Hfirst Hds].
  cbn [fold_left]. rewrite track_first by done.
  destruct (fold_track_valid time ds Hds first t Hfirst Ht) as (m & Hm & Hin & Hle & Hall).
  exists m. split; [done |]. split; [done |].
  intros d t' [->|Hd]%elem_of_cons Ht'; [| by eapply Hall].
  rewrite Ht in Ht'. injection Ht' as <-. done.
Qed.

Section DateRange.

Variable Date_parse : string → option Z.

Lemma track_earliest_track (cur c : value) :
  track_earliest Date_parse cur c = track (Date_of Date_parse) cur c.
Proof. reflexivity. Qed.

Lemma track_latest_track (cur c : value) :
  track_latest Date_parse cur c
  = track (fun v => Z.opp <$> Date_of Date_parse v) cur c.
Proof.
  unfold track_latest, track.
  destruct (truthy c); [| done]. destruct (truthy cur); [| done]. simpl negb.
  rewrite !orb_false_l.
  destruct (Date_of Date_parse cur) as [x|], (Date_of Date_parse c) as [y|];
    simpl; try done.
  destruct (Z.ltb_spec x y), (Z.ltb_spec (- y) (- x)); try done; lia.
Qed.

Lemma fold_track_earliest (cs : list value) (cur : value) :
  fold_left (track_earliest Date_parse) cs cur
  = fold_left (track (Date_of Date_parse)) cs cur.
Proof. reflexivity. Qed.

Lemma fold_track_latest (cs : list value) : ∀ cur,
  fold_left (track_latest Date_parse) cs cur
  = fold_left (track (fun v => Z.opp <$> Date_of Date_parse v)) cs cur.
Proof.
  induction cs as [|c cs IH]; intros cur; [done |].
  cbn [fold_left]. by rewrite track_latest_track, IH.
Qed.

(** With no date value present both endpoints stay [null]. *)
Lemma date_range_empty (now : string) (articles : list record) :
  present_dates articles = [] →
  earliest (summarize Date_parse now articles) = VNull
  ∧ latest (summarize Date_parse now articles) = VNull.
Proof.
  intros He. rewrite summarize_earliest, summarize_latest.
  rewrite fold_track_earliest, fold_track_latest.
  pose proof (fold_track_endpoint (Date_of Date_parse)
                (map (fun a => Get a "createdDate") articles)) as H1.
  pose proof (fold_track_endpoint (fun v => Z.opp <$> Date_of Date_parse v)
                (map (fun a => Get a "createdDate") articles)) as H2.
  unfold present_dates in He. simpl in H1, H2. rewrite He in H1, H2. done.
Qed.

(** When the first date value present is not a date, it becomes both
    endpoints and stays. *)
Lemma date_range_stuck (now : string) (articles : list record)
    (first : value) (rest : list value) :
  present_dates articles = first :: rest →
  Date_of Date_parse first = None →
  earliest (summarize Date_parse now articles) = first
  ∧ latest (summarize Date_parse now articles) = first.
Proof.
  intros Hd Hnone. rewrite summarize_earliest, summarize_latest.
  rewrite fold_track_earliest, fold_track_latest.
  rewrite (fold_track_present (Date_of Date_parse)
             (map (fun a => Get a "createdDate") articles)).
  rewrite (fold_track_present (fun v => Z.opp <$> Date_of Date_parse v)
             (map (fun a => Get a "createdDate") articles)).
  unfold present_dates in Hd. rewrite Hd.
  assert (truthy first = true) as Hfirst.
  { assert (first ∈ first :: rest) as Hin by (apply elem_of_cons; by left).
    rewrite <- Hd in Hin. by apply list_elem_of_filter in Hin as [? _]. }
  cbn [fold_left]. rewrite !track_first by done.
  split; apply fold_track_stuck; try done. by rewrite Hnone.
Qed.

(** When the first date value present is a date, the endpoints are date
    values of the input whose time values are the least and the greatest
    among those of the dates present. *)
Lemma date_range_min_max (now : string) (articles : list record) :
  first_date_parseable Date_parse articles →
  present_dates articles ≠ [] →
  ∃ te tl,
    earliest (summarize Date_parse now articles) ∈ present_dates articles
    ∧ latest (summarize Date_parse now articles) ∈ present_dates articles
    ∧ Date_of Date_parse (earliest (summarize Date_parse now articles)) = Some te
    ∧ Date_of Date_parse (latest (summarize Date_parse now articles)) = Some tl
    ∧ ∀ d t, d ∈ present_dates articles → Date_of Date_parse d = Some t →
        te ≤ t ≤ tl.
Proof.
  intros Hfirst Hne. rewrite summarize_earliest, summarize_latest.
  rewrite fold_track_earliest, fold_track_latest.
  pose proof (fold_track_endpoint (Date_of Date_parse)
                (map (fun a => Get a "createdDate") articles)) as H1.
  pose proof (fold_track_endpoint (fun v => Z.opp <$> Date_of Date_parse v)
                (map (fun a => Get a "createdDate") articles)) as H2.
  unfold first_date_parseable in Hfirst. unfold present_dates in *.
  simpl in H1, H2.
  destruct (filter (fun v => truthy v = true)
              (map (fun a => Get a "createdDate") articles)) as [|first ds];
    [done |].
  destruct Hfirst as [t Ht].
  destruct (H1 t Ht) as (te & Hte & Hine & Hmin).
  destruct (H2 (- t)) as (ntl & Htl & Hinl & Hmax); [by rewrite Ht |].
  destruct (Date_of Date_parse (fold_left _ _ VNull)) as [tl|] eqn:Hl in Htl;
    [| done].
  simpl in Htl. injection Htl as <-.
  exists te, tl. split; [done |]. split; [done |]. split; [done |].
  split; [done |]. intros d t' Hd Ht'. split; [by eapply Hmin |].
  specialize (Hmax d (- t') Hd). rewrite Ht' in Hmax.
  specialize (Hmax eq_refl). lia.
Qed.

End DateRange.

(** *** The statements about [generateSummary] *)

Lemma present_dates_Permutation (l l' : list record) :
  l ≡ₚ l' → present_dates l ≡ₚ present_dates l'.
Proof. intros H. unfold present_dates. by rewrite H. Qed.

Section SummaryClaims.

Variable Date_parse : string → option Z.

(** The invariant of the summary for inputs in which no record falls, for
    any categorical field, under a name plain objects inherit: the values
    of each tally object sum to [totalArticles]; and, for every input,
    each visibility counter lies between 0 and [totalArticles]. *)
Lemma tally_sums_to_total (now : string) (articles : list record) :
  let s := summarize Date_parse now articles in
  totalArticles s = VNum (Z.of_nat (length articles))
  ∧ (∀ c, (∀ a, a ∈ articles → ¬ inherited (bucket (field_name c) a)) →
          tally_sum (tally c s) = Some (Z.of_nat (length articles)))
  ∧ (∀ f, 0 ≤ counter f s ≤ Z.of_nat (length articles)).
Proof.
  intros s. split; [apply summarize_total |]. split.
  - intros c Hc. unfold s. rewrite summarize_tally. by apply tally_sum_total.
  - intros f. unfold s. rewrite summarize_counter. apply count_flags_bound.
Qed.

(** C6. A record whose categorical field is absent is counted under the
    property name [undefined], one whose field is null under the name
    [null]: the tally object holds, under that name, the number of records
    that fall under it, this record included. *)
Theorem absent_or_null_bucket
    (now : string) (articles : list record) (article : record) (c : categorical) :
  article ∈ articles →
  own article (field_name c) = None ∨ own article (field_name c) = Some SNull →
  ∃ s key n,
    generateSummary Date_parse now (PArray articles) = Return s
    ∧ key = match own article (field_name c) with
            | None => "undefined"
            | Some _ => "null"
            end
    ∧ bucket (field_name c) article = key
    ∧ tally c s !! key = Some (VNum (Z.of_nat n))
    ∧ n = occurrences (field_name c) key articles
    ∧ (1 ≤ n)%nat.
Proof.
  intros Hin Hfield.
  assert (bucket (field_name c) article
          = match own article (field_name c) with
            | None => "undefined"
            | Some _ => "null"
            end) as Hkey.
  { unfold bucket, Get. destruct Hfield as [-> | ->]; by destruct c. }
  pose proof (occurrences_elem (field_name c) articles article Hin) as Hn.
  rewrite Hkey in Hn.
  assert (¬ inherited (match own article (field_name c) with
                       | None => "undefined"
                       | Some _ => "null"
                       end)) as Hni.
  { destruct Hfield as [-> | ->]; by compute. }
  set (key := match own article (field_name c) with
              | None => "undefined"
              | Some _ => "null"
              end) in *.
  exists (summarize Date_parse now articles), key,
    (occurrences (field_name c) key articles).
  split; [apply generateSummary_array |].
  split; [reflexivity |]. split; [done |].
  rewrite summarize_tally, tally_lookup_count by done.
  destruct (occurrences (field_name c) key articles) as [|n]; [lia |].
  split; [reflexivity |]. split; [done | lia].
Qed.

(** C2, as amended.  Permuting the input leaves the total, the three
    tally objects and the three visibility counters unchanged; and when in
    both orders the first date value present is a date, the time values of
    both endpoints of the date range are unchanged too. *)
Theorem summary_order_independent
    (now now' : string) (articles articles' : list record) :
  articles ≡ₚ articles' →
  ∃ s s',
    generateSummary Date_parse now (PArray articles) = Return s
    ∧ generateSummary Date_parse now' (PArray articles') = Return s'
    ∧ totalArticles s = totalArticles s'
    ∧ (∀ c, tally c s = tally c s')
    ∧ (∀ f, counter f s = counter f s')
    ∧ (first_date_parseable Date_parse articles →
       first_date_parseable Date_parse articles' →
       Date_of Date_parse (earliest s) = Date_of Date_parse (earliest s')
       ∧ Date_of Date_parse (latest s) = Date_of Date_parse (latest s')).
Proof.
  intros Hperm. eexists _, _.
  split; [apply generateSummary_array |]. split; [apply generateSummary_array |].
  split; [by rewrite !summarize_total, Hperm |].
  split; [intros c; rewrite !summarize_tally; by apply tally_Permutation |].
  split; [intros f; rewrite !summarize_counter; by apply count_flags_Permutation |].
  intros Hfirst Hfirst'.
  pose proof (present_dates_Permutation _ _ Hperm) as Hd.
  destruct (present_dates articles) as [|d ds] eqn:He.
  - apply Permutation_nil_l in Hd. symmetry in Hd.
    destruct (date_range_empty Date_parse now articles He) as [-> ->].
    by destruct (date_range_empty Date_parse now' articles' Hd) as [-> ->].
  - assert (present_dates articles ≠ []) as Hne by (by rewrite He).
    assert (present_dates articles' ≠ []) as Hne'.
    { intros E. rewrite E in Hd. by apply Permutation_nil_r in Hd. }
    destruct (date_range_min_max Date_parse now articles Hfirst Hne)
      as (te & tl & Hine & Hinl & Hte & Htl & Hb).
    destruct (date_range_min_max Date_parse now' articles' Hfirst' Hne')
      as (te' & tl' & Hine' & Hinl' & Hte' & Htl' & Hb').
    rewrite Hte, Htl, Hte', Htl'.
    rewrite He in Hine, Hinl, Hb.
    rewrite <- Hd in Hine', Hinl'. rewrite Hd in Hine, Hinl.
    pose proof (Hb _ _ Hine' Hte').
    pose proof (Hb _ _ Hinl' Htl').
    pose proof (Hb' _ _ Hine Hte).
    pose proof (Hb' _ _ Hinl Htl).
    split; f_equal; lia.
Qed.

(** C3, as amended.  The date values the script looks at are those that
    are truthy.  If there is none, both endpoints remain null.  If the first
    of them is a date, the endpoints are date values of the input that are
    dates, and their time values are the least and the greatest among the
    dates present: values that are absent or are not dates are skipped. *)
Theorem date_range_tracks_min_max (now : string) (articles : list record) :
  ∃ s,
    generateSummary Date_parse now (PArray articles) = Return s
    ∧ (present_dates articles = [] → earliest s = VNull ∧ latest s = VNull)
    ∧ (first_date_parseable Date_parse articles →
       present_dates articles ≠ [] →
       ∃ te tl,
         earliest s ∈ present_dates articles
         ∧ latest s ∈ present_dates articles
         ∧ Date_of Date_parse (earliest s) = Some te
         ∧ Date_of Date_parse (latest s) = Some tl
         ∧ ∀ d t, d ∈ present_dates articles → Date_of Date_parse d = Some t →
             te ≤ t ≤ tl).
Proof.
  eexists. split; [apply generateSummary_array |]. split.
  - apply date_range_empty.
  - apply date_range_min_max.
Qed.

End SummaryClaims.

(** *** The statements at concrete inputs *)

(** The example of the specification, with the field names the script
    reads. *)
Example summary_of_two_articles :
  let faq_en := [("articleType", SStr "FAQ"); ("language", SStr "en");
                 ("isVisibleInPkb", SBool true); ("createdDate", SStr "2023-01-01")] in
  let faq_fr := [("articleType", SStr "FAQ"); ("language", SStr "fr");
                 ("isVisibleInPkb", SBool false); ("createdDate", SStr "2023-06-01")] in
  ∃ s,
    generateSummary iso_date_parse "" (PArray [faq_en; faq_fr]) = Return s
    ∧ totalArticles s = VNum 2
    ∧ articleTypes s = {[ "FAQ" := VNum 2 ]}
    ∧ languages s = {[ "en" := VNum 1; "fr" := VNum 1 ]}
    ∧ visibleInPkb s = 1
    ∧ earliest s = VStr "2023-01-01"
    ∧ latest s = VStr "2023-06-01".
Proof.
  eexists. split; [reflexivity |]. repeat split; by vm_compute.
Qed.

(** Which of two values with the same time value is kept depends on the
    order: the one met first stays. *)
Example tied_dates_keep_first :
  let text := [("createdDate", SStr "2023-01-01")] in
  let millis := [("createdDate", SNum 1672531200000)] in
  earliest (summarize iso_date_parse "" [text; millis]) = VStr "2023-01-01"
  ∧ earliest (summarize iso_date_parse "" [millis; text]) = VNum 1672531200000
  ∧ Date_of iso_date_parse (VStr "2023-01-01")
    = Date_of iso_date_parse (VNum 1672531200000).
Proof. repeat split. Qed.



(** C10 at a header with a comma inside a name: three columns in the
    header line, two fields in the data row. *)
Lemma csv_header_not_escaped_witness :
  let first := [("a,b", SStr "x"); ("c", SNum 1)] in
  Object_keys first ≠ []
  ∧ Forall (fun name => plain_name name = true) (Object_keys first)
  ∧ (∀ name, name ∈ Object_keys first →
             readable (cell_text (Get first name)) = true)
  ∧ ∃ columns fields,
      Rfc4180.parse_record (String.concat "," (Object_keys first))
      = Some columns
      ∧ Rfc4180.parse_record (csv_row (Object_keys first) first) = Some fields
      ∧ length fields = 2%nat
      ∧ length columns = 3%nat.
Proof.
  intros first.
  assert (Object_keys first ≠ []) as Hne by discriminate.
  assert (Forall (fun name => plain_name name = true) (Object_keys first))
    as Hplain by (repeat constructor).
  assert (∀ name, name ∈ Object_keys first →
                  readable (cell_text (Get first name)) = true) as Hcr.
  { intros name Hin. simpl in Hin.
    apply elem_of_cons in Hin as [-> | Hin]; [reflexivity |].
    apply elem_of_cons in Hin as [-> | Hin]; [reflexivity |].
    by apply elem_of_nil in Hin. }
  split; [exact Hne |]. split; [exact Hplain |]. split; [exact Hcr |].
  exact (proj1 (proj2 csv_header_not_escaped) first first Hne Hplain Hcr).
Defined.

(** C6 at a concrete input: one record without [language], one with. *)
Lemma absent_or_null_bucket_witness :
  let bare := [("articleType", SStr "FAQ")] in
  let full := [("articleType", SStr "FAQ"); ("language", SStr "en")] in
  bare ∈ [full; bare]
  ∧ (own bare (field_name Language) = None
     ∨ own bare (field_name Language) = Some SNull)
  ∧ ∃ s key n,
      generateSummary iso_date_parse "" (PArray [full; bare]) = Return s
      ∧ key = match own bare (field_name Language) with
              | None => "undefined"
              | Some _ => "null"
              end
      ∧ bucket (field_name Language) bare = key
      ∧ tally Language s !! key = Some (VNum (Z.of_nat n))
      ∧ n = occurrences (field_name Language) key [full; bare]
      ∧ (1 ≤ n)%nat.
Proof.
  intros bare full.
  assert (bare ∈ [full; bare]) as Hin.
  { apply elem_of_cons. right. apply elem_of_cons. by left. }
  split; [exact Hin |]. split; [left; reflexivity |].
  apply (absent_or_null_bucket iso_date_parse "" [full; bare] bare Language Hin).
  left. reflexivity.
Defined.

(** C9, the defect.  One record whose [articleType] is the string
    [constructor]: the tally object does not hold the number 1 under that
    name but a string, the source text of the inherited
    [Object.prototype.constructor] followed by the character 1; the values
    of the tally object do not sum to [totalArticles]. *)
Theorem tally_of_inherited_name :
  ∃ s,
    generateSummary iso_date_parse ""
      (PArray [[("articleType", SStr "constructor")]]) = Return s
    ∧ totalArticles s = VNum 1
    ∧ articleTypes s
      = {[ "constructor" := VStr "function Object() { [native code] }1" ]}
    ∧ tally_sum (articleTypes s) = None.
Proof.
  eexists. split; [reflexivity |]. repeat split; by vm_compute.
Qed.

(** C2 as stated fails: with a first date value that is not a date, the
    time value of the earliest endpoint depends on the order. *)
Lemma summary_dates_order_dependent :
  let unknown := [("createdDate", SStr "unknown")] in
  let dated := [("createdDate", SStr "2023-01-01")] in
  [unknown; dated] ≡ₚ [dated; unknown]
  ∧ ∃ s s',
      generateSummary iso_date_parse "" (PArray [unknown; dated]) = Return s
      ∧ generateSummary iso_date_parse "" (PArray [dated; unknown]) = Return s'
      ∧ Date_of iso_date_parse (earliest s) = None
      ∧ Date_of iso_date_parse (earliest s') = Some 1672531200000
      ∧ Date_of iso_date_parse (earliest s) ≠ Date_of iso_date_parse (earliest s').
Proof.
  intros unknown dated. split; [apply perm_swap |].
  eexists _, _. split; [reflexivity |]. split; [reflexivity |].
  split; [reflexivity |]. split; [reflexivity |]. discriminate.
Qed.

(** C2, as amended, at a concrete input. *)
Lemma summary_order_independent_witness :
  let january := [("articleType", SStr "FAQ"); ("createdDate", SStr "2023-01-01")] in
  let unknown := [("articleType", SStr "FAQ"); ("createdDate", SStr "unknown")] in
  let june := [("language", SStr "fr"); ("isVisibleInPkb", SBool true);
               ("createdDate", SStr "2023-06-01")] in
  [january; unknown; june] ≡ₚ [june; unknown; january]
  ∧ first_date_parseable iso_date_parse [january; unknown; june]
  ∧ first_date_parseable iso_date_parse [june; unknown; january]
  ∧ ∃ s s',
      generateSummary iso_date_parse "" (PArray [january; unknown; june]) = Return s
      ∧ generateSummary iso_date_parse "" (PArray [june; unknown; january]) = Return s'
      ∧ totalArticles s = totalArticles s'
      ∧ (∀ c, tally c s = tally c s')
      ∧ (∀ f, counter f s = counter f s')
      ∧ Date_of iso_date_parse (earliest s) = Date_of iso_date_parse (earliest s')
      ∧ Date_of iso_date_parse (latest s) = Date_of iso_date_parse (latest s').
Proof.
  intros january unknown june.
  assert ([january; unknown; june] ≡ₚ [june; unknown; january]) as Hperm.
  { etrans; [apply perm_skip, perm_swap |].
    etrans; [apply perm_swap |]. apply perm_skip, perm_swap. }
  assert (first_date_parseable iso_date_parse [january; unknown; june]) as H1.
  { by eexists. }
  assert (first_date_parseable iso_date_parse [june; unknown; january]) as H2.
  { by eexists. }
  split; [exact Hperm |]. split; [exact H1 |]. split; [exact H2 |].
  destruct (summary_order_independent iso_date_parse "" ""
              [january; unknown; june] [june; unknown; january] Hperm)
    as (s & s' & Hs & Hs' & Ht & Hc & Hf & Hd).
  exists s, s'. destruct (Hd H1 H2) as [He Hl]. by repeat split.
Defined.

(** C3 as stated fails: a first date value that is not a date becomes both
    endpoints, and stays, although a date follows. *)
Lemma unparseable_date_becomes_endpoint :
  let unknown := [("createdDate", SStr "unknown")] in
  let dated := [("createdDate", SStr "2023-01-01")] in
  ∃ s,
    generateSummary iso_date_parse "" (PArray [unknown; dated]) = Return s
    ∧ earliest s = VStr "unknown"
    ∧ latest s = VStr "unknown"
    ∧ Date_of iso_date_parse (VStr "unknown") = None
    ∧ Date_of iso_date_parse (VStr "2023-01-01") = Some 1672531200000.
Proof. intros unknown dated. eexists. by repeat split. Qed.

(** C3, as amended, at a concrete input. *)
Lemma date_range_tracks_min_max_witness :
  let undated := [("articleType", SStr "FAQ"); ("createdDate", SNull)] in
  let june := [("createdDate", SStr "2023-06-01")] in
  let unknown := [("createdDate", SStr "unknown")] in
  let january := [("createdDate", SStr "2023-01-01")] in
  let articles := [undated; june; unknown; january] in
  first_date_parseable iso_date_parse articles
  ∧ present_dates articles ≠ []
  ∧ ∃ s te tl,
      generateSummary iso_date_parse "" (PArray articles) = Return s
      ∧ earliest s ∈ present_dates articles
      ∧ latest s ∈ present_dates articles
      ∧ Date_of iso_date_parse (earliest s) = Some te
      ∧ Date_of iso_date_parse (latest s) = Some tl
      ∧ ∀ d t, d ∈ present_dates articles → Date_of iso_date_parse d = Some t →
          te ≤ t ≤ tl.
Proof.
  intros undated june unknown january articles.
  assert (first_date_parseable iso_date_parse articles) as H1 by (by eexists).
  assert (present_dates articles ≠ []) as H2 by discriminate.
  split; [exact H1 |]. split; [exact H2 |].
  destruct (date_range_tracks_min_max iso_date_parse "" articles)
    as (s & Hs & _ & Hd).
  destruct (Hd H1 H2) as (te & tl & H).
  by exists s, te, tl.
Defined.

(** ** The driver *)

Lemma bind_failed {A B} (c : M A) (k : A → M B) :
  no_exit c → (∀ a w, failed (k a w).1) → ∀ w, failed ((c ≫= k) w).1.
Proof.
  intros Hc Hk w. specialize (Hc w). unfold mbind, M_bind.
  destruct (c w) as [[a|m|n] w']; simpl in *; [apply Hk | done | done].
Qed.

Lemma bind_failed_now {A B} (c : M A) (k : A → M B) :
  (∀ w, failed (c w).1) → ∀ w, failed ((c ≫= k) w).1.
Proof.
  intros Hc w. specialize (Hc w). unfold mbind, M_bind.
  by destruct (c w) as [[a|m|n] w'].
Qed.

Lemma console_log_no_exit (line : string) : no_exit (console_log line).
Proof. by intros w. Qed.

Lemma console_error_no_exit (line : string) : no_exit (console_error line).
Proof. by intros w. Qed.

Lemma prop_length_no_exit (p : parsed) :
  match prop_length p with Exit _ => False | _ => True end.
Proof. by destruct p as [[| | |]| |]. Qed.

Lemma first_keys_no_exit (p : parsed) :
  match first_keys p with Exit _ => False | _ => True end.
Proof.
  destruct p as [[| | |[|c s]]|r|[|first rest]]; try done.
  simpl. by destruct (own r "0") as [[| | |]|].
Qed.

Lemma jsonToCsv_no_exit (p : parsed) :
  match jsonToCsv p with Exit _ => False | _ => True end.
Proof.
  unfold jsonToCsv. destruct (negb (truthy_parsed p)); [done |].
  pose proof (prop_length_no_exit p) as Hl.
  destruct (prop_length p) as [len| |]; simpl; [| done | done].
  destruct (is_zero len); [done |].
  pose proof (first_keys_no_exit p) as Hk.
  destruct (first_keys p) as [headers| |]; simpl; [| done | done].
  by destruct p.
Qed.

(** On anything but an array [generateSummary] throws: either reading
    [length] fails, or [forEach] is not a function. *)
Lemma generateSummary_non_array
    (Date_parse : string → option Z) (now : string) (p : parsed) :
  is_array p = false → failed (generateSummary Date_parse now p).
Proof.
  intros Hp. unfold generateSummary.
  destruct p as [[| | |]| |]; done.
Qed.

Lemma lift_no_exit {A} (c : completion A) :
  match c with Exit _ => False | _ => True end → no_exit (lift c).
Proof. by intros Hc w. Qed.

Create HintDb no_exit discriminated.

#[local] Hint Resolve console_log_no_exit console_error_no_exit : no_exit.

#[local] Hint Extern 1 (no_exit (lift _)) =>
  apply lift_no_exit; first [apply prop_length_no_exit | apply jsonToCsv_no_exit]
  : no_exit.

Section DriverProperties.

Variable Date_parse : string → option Z.
Variable JSON_parse : string → parse_result.
Variable JSON_stringify : Summary → string.
Variable clock : nat → string.
Variable writable : string → bool.
Variable DATA_DIR : string.

(** Logging is best effort: [logExport] always returns. *)
Lemma logExport_returns (operation status details : string) (w : world) :
  ∃ w', logExport clock writable DATA_DIR operation status details w
        = (Return (), w').
Proof.
  unfold logExport, mbind, M_bind, now_toISOString, try_catch,
    fs_appendFileSync, console_error. simpl.
  destruct (writable (LOG_FILE DATA_DIR)); by eexists.
Qed.

Lemma logExport_no_exit (operation status details : string) :
  no_exit (logExport clock writable DATA_DIR operation status details).
Proof.
  intros w. by destruct (logExport_returns operation status details w) as [w' ->].
Qed.

Lemma fs_writeFileSync_no_exit (path data : string) :
  no_exit (fs_writeFileSync writable path data).
Proof. intros w. unfold fs_writeFileSync. by destruct (writable path). Qed.

Lemma now_no_exit : no_exit (now_toISOString clock).
Proof. by intros w. Qed.

#[local] Hint Resolve logExport_no_exit fs_writeFileSync_no_exit now_no_exit
  : no_exit.

(** The [catch] block ends the run with status 1. *)
Lemma on_error_exits (message : string) (w : world) :
  ∃ w', on_error clock writable DATA_DIR message w = (Exit 1, w').
Proof.
  unfold on_error, mbind, M_bind, console_error, process_exit.
  match goal with
  | |- context [logExport clock writable DATA_DIR ?o ?s ?d ?w0] =>
      destruct (logExport_returns o s d w0) as [w' ->]
  end.
  by eexists.
Qed.

Lemma try_catch_failed (body : M ()) (w : world) :
  failed (body w).1 →
  (try_catch body (on_error clock writable DATA_DIR) w).1 = Exit 1.
Proof.
  unfold try_catch. destruct (body w) as [[[]|m|n] w']; simpl; [done | |].
  - intros _. by destruct (on_error_exits m w') as [w'' ->].
  - by intros ->.
Qed.

(** A document that is not an array never gets through the [try] block. *)
Lemma process_articles_non_array (p : parsed) :
  is_array p = false →
  ∀ w, failed (process_articles Date_parse JSON_stringify clock writable DATA_DIR p w).1.
Proof.
  intros Hp. unfold process_articles.
  do 10 (apply bind_failed; [solve [auto with no_exit] | intros ?]).
  apply bind_failed_now. intros w. by apply generateSummary_non_array.
Qed.

(** C7. When [articles.json] is absent the run ends at once with exit
    status 1 and leaves every file as it was: no CSV, no summary, not even
    a log line. *)
Theorem missing_input_aborts (w : world) :
  files w !! ARTICLES_JSON DATA_DIR = None →
  ∃ w',
    run Date_parse JSON_parse JSON_stringify clock writable DATA_DIR w = (1, w')
    ∧ files w' = files w.
Proof.
  intros Hmissing.
  unfold run, exportKnowledgeData, try_catch, mbind, M_bind, fs_existsSync,
    console_log, console_error, process_exit. simpl.
  rewrite Hmissing. simpl. by eexists.
Qed.

(** C5. When [articles.json] is present but is not valid JSON, or parses
    to something that is not an array, the run ends with exit status 1. *)
Theorem malformed_input_aborts (w : world) (text : string) :
  files w !! ARTICLES_JSON DATA_DIR = Some text →
  (∃ message, JSON_parse text = SyntaxError message)
  ∨ (∃ document, JSON_parse text = Parsed document ∧ is_array document = false) →
  (run Date_parse JSON_parse JSON_stringify clock writable DATA_DIR w).1 = 1.
Proof.
  intros Hpresent Hbad.
  unfold run, exportKnowledgeData.
  unfold mbind at 1. unfold M_bind at 1. unfold console_log at 1. cbv beta iota.
  match goal with
  | |- context [try_catch ?body ?handler ?w0] =>
      pose proof (try_catch_failed body w0) as Hcatch;
      destruct (try_catch body handler w0) as [c w'] eqn:Hrun
  end.
  simpl in Hcatch. rewrite Hcatch; [done |]. clear Hcatch Hrun.
  unfold mbind, M_bind, fs_existsSync, fs_readFileSync, console_log. simpl.
  repeat (rewrite Hpresent; simpl). unfold parse.
  destruct Hbad as [[message ->] | (document & -> & Harray)].
  - done.
  - simpl. by apply process_articles_non_array.
Qed.

End DriverProperties.

(** *** The driver at concrete inputs *)

(** An empty array is a well-formed input: the run succeeds and writes an
    empty CSV file. *)
Example empty_array_succeeds :
  ∃ w', example_run (example_world (Some "[]")) = (0, w')
        ∧ files w' !! "data/articles.csv" = Some "".
Proof. eexists. split; by vm_compute. Qed.

(** C7 at a concrete world: no file at all. *)
Lemma missing_input_aborts_witness :
  files (example_world None) !! ARTICLES_JSON "data" = None
  ∧ ∃ w', example_run (example_world None) = (1, w')
          ∧ files w' = files (example_world None).
Proof.
  split; [reflexivity |].
  apply (missing_input_aborts iso_date_parse example_parse (fun _ => "{}")
           (fun _ => "2024-01-01T00:00:00.000Z") (fun _ => true) "data"
           (example_world None)).
  reflexivity.
Defined.

(** C5 at a concrete world: the input holds an object, not an array. *)
Lemma malformed_input_aborts_witness :
  files (example_world (Some "{}")) !! ARTICLES_JSON "data" = Some "{}"
  ∧ ((∃ message, example_parse "{}" = SyntaxError message)
     ∨ (∃ document, example_parse "{}" = Parsed document
                    ∧ is_array document = false))
  ∧ (example_run (example_world (Some "{}"))).1 = 1.
Proof.
  assert (files (example_world (Some "{}")) !! ARTICLES_JSON "data" = Some "{}")
    as Hpresent by reflexivity.
  assert ((∃ message, example_parse "{}" = SyntaxError message)
          ∨ (∃ document, example_parse "{}" = Parsed document
                         ∧ is_array document = false)) as Hbad.
  { right. exists (PObject []). by split. }
  split; [exact Hpresent |]. split; [exact Hbad |].
  exact (malformed_input_aborts iso_date_parse example_parse (fun _ => "{}")
           (fun _ => "2024-01-01T00:00:00.000Z") (fun _ => true) "data"
           (example_world (Some "{}")) "{}" Hpresent Hbad).
Defined.

(** * Further properties of the script *)

(** ** [jsonToCsv] *)


(** X2. A value whose textual form holds no comma, no double quote and no
    line feed is written as it is, without quotes. *)
Theorem csv_plain_cell_verbatim (article : record) (header : string) :
  Get article header ≠ VNull → Get article header ≠ VUndefined →
  includes (String_ (Get article header)) (str comma) = false →
  includes (String_ (Get article header)) (str dquote) = false →
  includes (String_ (Get article header)) (str newline) = false →
  csv_cell (Get article header) = String_ (Get article header).
Proof.
  intros Hn Hu Hc Hq Hl. rewrite csv_cell_unfold.
  unfold special. rewrite <- !includes_char, Hc, Hq, Hl. simpl.
  by destruct (Get article header).
Qed.

(** X3. For a field the record does not own, the cell is empty exactly
    when the header is not a name that plain objects inherit. *)
Theorem csv_missing_field_empty_iff (article : record) (header : string) :
  own article header = None →
  csv_cell (Get article header) = "" ↔ ¬ inherited header.
Proof.
  intros Hown. split; [| by apply csv_cell_missing].
  intros Hcell Hin. apply Hin. clear Hin.
  unfold Get in Hcell. rewrite Hown in Hcell.
  unfold ObjectPrototype_get in *.
  repeat case_decide; try done; rewrite csv_cell_unfold in Hcell;
    by destruct (special _).
Qed.

Lemma jsonToCsv_non_array_cases (p : parsed) :
  is_array p = false →
  jsonToCsv p = Return "" ∨ ∃ message, jsonToCsv p = Throw message.
Proof.
  intros Hp. unfold jsonToCsv.
  destruct (negb (truthy_parsed p)); [by left |].
  pose proof (prop_length_no_exit p) as Hl.
  destruct (prop_length p) as [len|m|]; simpl; [| right; by eexists | done].
  destruct (is_zero len); [by left |].
  pose proof (first_keys_no_exit p) as Hk.
  destruct (first_keys p) as [headers|m|]; simpl; [| right; by eexists | done].
  destruct p; [right; by eexists | right; by eexists | done].
Qed.

(** X4. On a document that is not an array [jsonToCsv] never produces a
    header or a row: it throws, or it returns the empty string, which it
    does exactly when the document is falsy or has a [length] equal to 0. *)
Theorem jsonToCsv_non_array (p : parsed) :
  is_array p = false →
  (jsonToCsv p = Return ""
   ∧ (truthy_parsed p = false ∨ ∃ len, prop_length p = Return len ∧ is_zero len = true))
  ∨ (∃ message, jsonToCsv p = Throw message
     ∧ truthy_parsed p = true
     ∧ ∀ len, prop_length p = Return len → is_zero len = false).
Proof.
  intros Hp. destruct (jsonToCsv_non_array_cases p Hp) as [Hr | [m Hm]].
  - left. split; [done |]. unfold jsonToCsv in Hr.
    destruct (truthy_parsed p); [right | by left]. simpl in Hr.
    destruct (prop_length p) as [len| |]; simpl in Hr; try done.
    exists len. split; [done |]. destruct (is_zero len); [done |].
    destruct (first_keys p); simpl in Hr; try done. by destruct p.
  - right. exists m. split; [done |]. unfold jsonToCsv in Hm.
    destruct (truthy_parsed p); [| done]. split; [done |]. simpl in Hm.
    intros len Hlen. rewrite Hlen in Hm. simpl in Hm.
    by destruct (is_zero len).
Qed.

(** X5. The output depends on the later records only through their own
    values at the first record's field names: fields the first record
    lacks never reach the output. *)
Theorem jsonToCsv_ignores_extra_fields (first : record) (rest rest' : list record) :
  Forall2 (fun a b => ∀ header, header ∈ Object_keys first →
                                own a header = own b header) rest rest' →
  jsonToCsv (PArray (first :: rest)) = jsonToCsv (PArray (first :: rest')).
Proof.
  intros H. rewrite !jsonToCsv_array.
  assert (map (csv_row (Object_keys first)) rest
          = map (csv_row (Object_keys first)) rest') as Hrows.
  { induction H as [|a b rest rest' Hab _ IH]; [done |].
    simpl. f_equal; [by apply csv_row_extra_fields | exact IH]. }
  simpl map. by rewrite Hrows.
Qed.

(** ** [generateSummary] *)

Lemma occurrences_pos (field k : string) (articles : list record) :
  (0 < occurrences field k articles)%nat
  ↔ ∃ a, a ∈ articles ∧ bucket field a = k.
Proof.
  unfold occurrences. split.
  - intros Hpos.
    destruct (filter (fun article => bucket field article = k) articles)
      as [|a rest] eqn:Hf; [simpl in Hpos; lia |].
    assert (a ∈ filter (fun article => bucket field article = k) articles) as Hin.
    { rewrite Hf. apply elem_of_cons. by left. }
    apply list_elem_of_filter in Hin as [Hk Hin]. by exists a.
  - intros (a & Hin & Hk).
    assert (a ∈ filter (fun article => bucket field article = k) articles) as Hf.
    { by apply list_elem_of_filter. }
    destruct (filter _ articles); [by apply not_elem_of_nil in Hf | simpl; lia].
Qed.

Lemma inherited_native (k : string) :
  inherited k → k ≠ "__proto__" → ∃ name, ObjectPrototype_get k = VNative name.
Proof.
  unfold inherited, ObjectPrototype_get. intros Hin Hk.
  repeat case_decide; try done; by eexists.
Qed.

(** Counting on top of a built-in function turns the tally into a string
    that grows by one character per record. *)
Lemma iter_native (name : string) (n : nat) :
  ∃ text, Nat.iter (S n) or_zero_plus_one (VNative name)
          = VStr (String "f" text).
Proof.
  induction n as [|n [text IH]].
  - by eexists.
  - rewrite Nat.iter_succ, IH. by eexists.
Qed.

Section SummaryExtras.

Variable Date_parse : string → option Z.

(** X6. Under a name that plain objects do not inherit, a tally object
    holds exactly the number of records counted under that name, and no
    entry at all when there is none. *)
Theorem tally_counts_records
    (now : string) (articles : list record) (c : categorical) (k : string) :
  ¬ inherited k →
  ∃ s,
    generateSummary Date_parse now (PArray articles) = Return s
    ∧ tally c s !! k
      = match occurrences (field_name c) k articles with
        | O => None
        | S n => Some (VNum (Z.of_nat (S n)))
        end.
Proof.
  intros Hk. eexists. split; [apply generateSummary_array |].
  rewrite summarize_tally. by apply tally_lookup_count.
Qed.

(** X7. The keys of a tally object are the names under which some record
    is counted, except [__proto__], which never becomes a key. *)
Theorem tally_keys
    (now : string) (articles : list record) (c : categorical) (k : string) :
  ∃ s,
    generateSummary Date_parse now (PArray articles) = Return s
    ∧ (is_Some (tally c s !! k)
       ↔ k ≠ "__proto__"
         ∧ ∃ a, a ∈ articles ∧ bucket (field_name c) a = k).
Proof.
  eexists. split; [apply generateSummary_array |].
  rewrite summarize_tally, tally_lookup, <- occurrences_pos.
  case_decide as Hk.
  - split; [by intros [? ?] | by intros [? _]].
  - destruct (occurrences (field_name c) k articles).
    + split; [by intros [? ?] | intros [_ ?]; lia].
    + split; [intros _; split; [done | lia] | by eexists].
Qed.

(** X8. Under an inherited name other than [__proto__] that some record
    falls under, the tally object holds a string, not a number. *)
Theorem tally_inherited_is_text
    (now : string) (articles : list record) (c : categorical) (a : record) :
  a ∈ articles →
  inherited (bucket (field_name c) a) →
  bucket (field_name c) a ≠ "__proto__" →
  ∃ s text,
    generateSummary Date_parse now (PArray articles) = Return s
    ∧ tally c s !! bucket (field_name c) a = Some (VStr text).
Proof.
  intros Hin Hinh Hk.
  destruct (inherited_native _ Hinh Hk) as [name Hname].
  pose proof (occurrences_elem (field_name c) articles a Hin) as Hocc.
  destruct (occurrences (field_name c) (bucket (field_name c) a) articles)
    as [|n] eqn:Ho; [lia |].
  destruct (iter_native name n) as [text Htext].
  exists (summarize Date_parse now articles), (String "f" text).
  split; [apply generateSummary_array |].
  rewrite summarize_tally, tally_lookup, decide_False by done.
  by rewrite Ho, Hname, Htext.
Qed.

(** X9. Each visibility counter is the number of records whose flag is
    truthy. *)
Theorem counter_counts_truthy
    (now : string) (articles : list record) (f : visibility) :
  ∃ s,
    generateSummary Date_parse now (PArray articles) = Return s
    ∧ counter f s
      = Z.of_nat (length (filter (fun a => truthy (Get a (flag_name f)) = true)
                            articles)).
Proof.
  eexists. split; [apply generateSummary_array |].
  rewrite summarize_counter, count_flags. lia.
Qed.

(** X10. Summaries add up: the total, every visibility counter, and
    every tally entry under a name that is not inherited, of two batches
    processed as one are the sums over the batches. *)
Theorem summary_of_concatenation (now : string) (batch batch' : list record) :
  ∃ s s' both,
    generateSummary Date_parse now (PArray batch) = Return s
    ∧ generateSummary Date_parse now (PArray batch') = Return s'
    ∧ generateSummary Date_parse now (PArray (batch ++ batch')) = Return both
    ∧ (∀ n n', totalArticles s = VNum n → totalArticles s' = VNum n' →
               totalArticles both = VNum (n + n'))
    ∧ (∀ f, counter f both = counter f s + counter f s')
    ∧ (∀ c k, ¬ inherited k →
              entry (tally c both) k = entry (tally c s) k + entry (tally c s') k).
Proof.
  eexists _, _, _.
  split; [apply generateSummary_array |].
  split; [apply generateSummary_array |].
  split; [apply generateSummary_array |].
  split; [| split].
  - intros n n'. rewrite !summarize_total, length_app.
    intros [= <-] [= <-]. f_equal. lia.
  - intros f.
    rewrite !summarize_counter, !count_flags, filter_app, length_app. lia.
  - intros c k Hk. unfold entry.
    rewrite !summarize_tally, !tally_lookup_count by done.
    unfold occurrences. rewrite filter_app, length_app.
    destruct (length (filter _ batch)), (length (filter _ batch')); simpl; lia.
Qed.

(** Whatever the dates are worth, the endpoint after the loop is the
    endpoint before it or one of the truthy values met. *)
Lemma fold_track_member (time : value → option Z) (cs : list value) : ∀ cur,
  fold_left (track time) cs cur = cur
  ∨ (fold_left (track time) cs cur ∈ cs
     ∧ truthy (fold_left (track time) cs cur) = true).
Proof.
  induction cs as [|c cs IH]; intros cur; [by left |].
  cbn [fold_left].
  assert (track time cur c = cur ∨ (track time cur c = c ∧ truthy c = true))
    as [-> | [-> Hc]].
  { unfold track. destruct (truthy c); [| by left].
    destruct (negb (truthy cur) || Date_lt (time c) (time cur)); auto. }
  - destruct (IH cur) as [-> | [Hin Ht]]; [by left | right].
    split; [by apply elem_of_cons; right | done].
  - right. destruct (IH c) as [-> | [Hin Ht]].
    + split; [by apply elem_of_cons; left | done].
    + split; [by apply elem_of_cons; right | done].
Qed.

Lemma fold_track_null_iff (time : value → option Z) (cs : list value) :
  let r := fold_left (track time) cs VNull in
  (r = VNull ↔ filter (fun v => truthy v = true) cs = [])
  ∧ (filter (fun v => truthy v = true) cs ≠ [] →
     r ∈ filter (fun v => truthy v = true) cs).
Proof.
  intros r. unfold r. rewrite fold_track_present.
  destruct (filter (fun v => truthy v = true) cs) as [|d ds] eqn:Hf.
  - by split.
  - assert (truthy d = true) as Hd.
    { assert (d ∈ filter (fun v => truthy v = true) cs) as Hin.
      { rewrite Hf. apply elem_of_cons. by left. }
      by apply list_elem_of_filter in Hin as [? _]. }
    cbn [fold_left]. rewrite track_first by done.
    destruct (fold_track_member time ds d) as [-> | [Hin Ht]].
    + split; [| intros _; apply elem_of_cons; by left].
      split; [| done]. intros E. by rewrite E in Hd.
    + split; [| intros _; apply elem_of_cons; by right].
      split; [| done]. intros E. by rewrite E in Ht.
Qed.

(** X11. The two endpoints of the date range are null together, exactly
    when no record has a truthy [createdDate]; otherwise each of them is
    one of the truthy [createdDate] values of the input. *)
Theorem date_range_endpoints (now : string) (articles : list record) :
  ∃ s,
    generateSummary Date_parse now (PArray articles) = Return s
    ∧ (earliest s = VNull ↔ present_dates articles = [])
    ∧ (latest s = VNull ↔ present_dates articles = [])
    ∧ (present_dates articles ≠ [] →
       earliest s ∈ present_dates articles
       ∧ latest s ∈ present_dates articles).
Proof.
  eexists. split; [apply generateSummary_array |].
  rewrite summarize_earliest, summarize_latest.
  rewrite fold_track_earliest, fold_track_latest.
  pose proof (fold_track_null_iff (Date_of Date_parse)
                (map (fun a => Get a "createdDate") articles)) as [He Hine].
  pose proof (fold_track_null_iff (fun v => Z.opp <$> Date_of Date_parse v)
                (map (fun a => Get a "createdDate") articles)) as [Hl Hinl].
  unfold present_dates. split; [exact He |]. split; [exact Hl |].
  intros Hne. split; [by apply Hine | by apply Hinl].
Qed.

(** X12. When the first truthy [createdDate] is not a date, it becomes
    both endpoints and no later value replaces it. *)
Theorem unparseable_first_date_stays
    (now : string) (articles : list record) (first : value) (rest : list value) :
  present_dates articles = first :: rest →
  Date_of Date_parse first = None →
  ∃ s,
    generateSummary Date_parse now (PArray articles) = Return s
    ∧ earliest s = first ∧ latest s = first.
Proof.
  intros Hd Hnone. eexists. split; [apply generateSummary_array |].
  by apply (date_range_stuck Date_parse now articles first rest).
Qed.

End SummaryExtras.

(** ** The driver *)

Lemma append_inj_l (s t u : string) : s +:+ t = s +:+ u → t = u.
Proof.
  induction s as [|c s IH]; [done |].
  rewrite !append_cons. intros [= H]. by apply IH.
Qed.

Lemma bind_return {A B} (c : M A) (k : A → M B) (w w1 : world) (a : A) :
  c w = (Return a, w1) → (c ≫= k) w = k a w1.
Proof. intros H. unfold mbind, M_bind. by rewrite H. Qed.

Lemma bind_throw {A B} (c : M A) (k : A → M B) (w w1 : world) (m : string) :
  c w = (Throw m, w1) → (c ≫= k) w = (Throw m, w1).
Proof. intros H. unfold mbind, M_bind. by rewrite H. Qed.

Lemma no_exit_bind {A B} (c : M A) (k : A → M B) :
  no_exit c → (∀ a, no_exit (k a)) → no_exit (c ≫= k).
Proof.
  intros Hc Hk w. specialize (Hc w). unfold mbind, M_bind.
  destruct (c w) as [[a|m|n] w1]; simpl in *; [apply Hk | done | done].
Qed.

Lemma no_exit_exits_one {A} (c : M A) : no_exit c → exits_one c.
Proof. intros Hc w. specialize (Hc w). by destruct (c w).1. Qed.

Lemma exits_one_bind {A B} (c : M A) (k : A → M B) :
  exits_one c → (∀ a, exits_one (k a)) → exits_one (c ≫= k).
Proof.
  intros Hc Hk w. specialize (Hc w). unfold mbind, M_bind.
  destruct (c w) as [[a|m|n] w1]; simpl in *; [apply Hk | done | done].
Qed.

Lemma exits_one_try_catch {A} (body : M A) (handler : string → M A) :
  exits_one body → (∀ m, exits_one (handler m)) →
  exits_one (try_catch body handler).
Proof.
  intros Hb Hh w. specialize (Hb w). unfold try_catch.
  destruct (body w) as [[a|m|n] w1]; simpl in *; [done | apply Hh | done].
Qed.

Lemma writes_only_bind (paths : list string) {A B} (c : M A) (k : A → M B) :
  writes_only paths c → (∀ a, writes_only paths (k a)) →
  writes_only paths (c ≫= k).
Proof.
  intros Hc Hk w p Hp. specialize (Hc w p Hp). unfold mbind, M_bind.
  destruct (c w) as [[a|m|n] w1]; simpl in *; [| done | done].
  by rewrite (Hk a w1 p Hp).
Qed.

Lemma writes_only_try_catch (paths : list string) {A}
    (body : M A) (handler : string → M A) :
  writes_only paths body → (∀ m, writes_only paths (handler m)) →
  writes_only paths (try_catch body handler).
Proof.
  intros Hb Hh w p Hp. specialize (Hb w p Hp). unfold try_catch.
  destruct (body w) as [[a|m|n] w1]; simpl in *; [done | | done].
  by rewrite (Hh m w1 p Hp).
Qed.

Lemma writes_only_console_log (paths : list string) (line : string) :
  writes_only paths (console_log line).
Proof. by intros w p _. Qed.

Lemma writes_only_console_error (paths : list string) (line : string) :
  writes_only paths (console_error line).
Proof. by intros w p _. Qed.

Lemma writes_only_lift (paths : list string) {A} (c : completion A) :
  writes_only paths (lift c).
Proof. by intros w p _. Qed.

Lemma writes_only_exit (paths : list string) {A} (code : Z) :
  writes_only paths (@process_exit A code).
Proof. by intros w p _. Qed.

Lemma writes_only_ret (paths : list string) {A} (a : A) :
  writes_only paths (mret a : M A).
Proof. by intros w p _. Qed.

Lemma writes_only_exists (paths : list string) (path : string) :
  writes_only paths (fs_existsSync path).
Proof. by intros w p _. Qed.

Lemma writes_only_read (paths : list string) (path : string) :
  writes_only paths (fs_readFileSync path).
Proof. intros w p _. unfold fs_readFileSync. by destruct (files w !! path). Qed.

Create HintDb frame discriminated.

#[local] Hint Resolve writes_only_console_log writes_only_console_error
  writes_only_lift writes_only_exit writes_only_ret writes_only_exists
  writes_only_read : frame.

Lemma generateSummary_no_exit
    (Date_parse : string → option Z) (now : string) (p : parsed) :
  match generateSummary Date_parse now p with Exit _ => False | _ => True end.
Proof. by destruct p as [[| | |]| |]. Qed.

#[local] Hint Resolve logExport_no_exit fs_writeFileSync_no_exit now_no_exit
  : no_exit.

#[local] Hint Extern 1 (no_exit (lift (generateSummary _ _ _))) =>
  apply lift_no_exit, generateSummary_no_exit : no_exit.

Section DriverExtras.

Variable Date_parse : string → option Z.
Variable JSON_parse : string → parse_result.
Variable JSON_stringify : Summary → string.
Variable clock : nat → string.
Variable writable : string → bool.
Variable DATA_DIR : string.

Abbreviation CSV := (ARTICLES_CSV DATA_DIR).
Abbreviation JSON := (ARTICLES_JSON DATA_DIR).
Abbreviation SUMMARY := (SUMMARY_JSON DATA_DIR).
Abbreviation LOG := (LOG_FILE DATA_DIR).
Abbreviation the_run := (run Date_parse JSON_parse JSON_stringify clock writable DATA_DIR).
Abbreviation process :=
  (process_articles Date_parse JSON_stringify clock writable DATA_DIR).
Abbreviation handler := (on_error clock writable DATA_DIR).
Abbreviation log := (logExport clock writable DATA_DIR).

(** The four paths are distinct, whatever the data directory is. *)
Lemma paths_distinct :
  JSON ≠ CSV ∧ JSON ≠ SUMMARY ∧ JSON ≠ LOG
  ∧ CSV ≠ SUMMARY ∧ CSV ≠ LOG ∧ SUMMARY ≠ LOG.
Proof.
  unfold ARTICLES_JSON, ARTICLES_CSV, SUMMARY_JSON, LOG_FILE.
  repeat split; intros E%append_inj_l; discriminate E.
Qed.

Lemma writes_only_write (paths : list string) (path data : string) :
  path ∈ paths → writes_only paths (fs_writeFileSync writable path data).
Proof.
  intros Hin w p Hp. unfold fs_writeFileSync.
  destruct (writable path); [| done]. simpl.
  apply lookup_insert_ne. by intros ->.
Qed.

Lemma writes_only_append (paths : list string) (path data : string) :
  path ∈ paths → writes_only paths (fs_appendFileSync writable path data).
Proof.
  intros Hin w p Hp. unfold fs_appendFileSync.
  destruct (writable path); [| done]. simpl.
  apply lookup_insert_ne. by intros ->.
Qed.

Lemma writes_only_now (paths : list string) :
  writes_only paths (now_toISOString clock).
Proof. by intros w p _. Qed.

Lemma writes_only_logExport (paths : list string) (operation status details : string) :
  LOG ∈ paths → writes_only paths (log operation status details).
Proof.
  intros Hin. unfold logExport.
  apply writes_only_bind; [apply writes_only_now | intros timestamp].
  apply writes_only_try_catch; [by apply writes_only_append |].
  intros m. apply writes_only_console_error.
Qed.

Lemma writes_only_on_error (paths : list string) (message : string) :
  LOG ∈ paths → writes_only paths (handler message).
Proof.
  intros Hin. unfold on_error.
  apply writes_only_bind; [auto with frame | intros _].
  apply writes_only_bind; [by apply writes_only_logExport | intros _].
  auto with frame.
Qed.

Lemma writes_only_process (p : parsed) :
  writes_only [CSV; SUMMARY; LOG] (process p).
Proof.
  assert (CSV ∈ [CSV; SUMMARY; LOG]) as Hc by repeat constructor.
  assert (SUMMARY ∈ [CSV; SUMMARY; LOG]) as Hs by repeat constructor.
  assert (LOG ∈ [CSV; SUMMARY; LOG]) as Hl by repeat constructor.
  unfold process_articles.
  do 21 (apply writes_only_bind;
          [first [ solve [auto with frame]
                 | by apply writes_only_logExport
                 | by apply writes_only_write
                 | apply writes_only_now ]
          | intros ? ]).
  by apply writes_only_logExport.
Qed.

Lemma no_exit_process (p : parsed) : no_exit (process p).
Proof.
  unfold process_articles.
  do 21 (apply no_exit_bind; [solve [auto with no_exit] | intros ?]).
  auto with no_exit.
Qed.

(** X19. Whatever the input and whatever fails, a run changes no file
    other than the CSV, the summary and the log; in particular the input
    file is left as it was. *)
Theorem run_writes_outputs_only (w : world) (p : string) :
  p ∉ [CSV; SUMMARY; LOG] →
  files (the_run w).2 !! p = files w !! p
  ∧ files (the_run w).2 !! JSON = files w !! JSON.
Proof.
  assert (writes_only [CSV; SUMMARY; LOG]
            (exportKnowledgeData Date_parse JSON_parse JSON_stringify clock
               writable DATA_DIR)) as Hframe.
  { unfold exportKnowledgeData.
    apply writes_only_bind; [auto with frame | intros _].
    apply writes_only_try_catch;
      [| intros m; apply writes_only_on_error; repeat constructor].
    apply writes_only_bind; [auto with frame | intros found].
    apply writes_only_bind.
    { destruct (negb found); [| auto with frame].
      apply writes_only_bind; [auto with frame | intros _].
      apply writes_only_bind; [auto with frame | intros _]. auto with frame. }
    intros _. apply writes_only_bind; [auto with frame | intros _].
    apply writes_only_bind; [auto with frame | intros text].
    apply writes_only_bind; [| intros doc; apply writes_only_process].
    unfold parse. destruct (JSON_parse text); auto with frame. }
  assert (∀ q, q ∉ [CSV; SUMMARY; LOG] → files (the_run w).2 !! q = files w !! q)
    as Hrun.
  { intros q Hq. specialize (Hframe w q Hq). unfold run.
    by destruct (exportKnowledgeData _ _ _ _ _ _ w). }
  intros Hp. split; [by apply Hrun |].
  apply Hrun. destruct paths_distinct as (H1 & H2 & H3 & _).
  rewrite !elem_of_cons. intros [E | [E | [E | E]]]; try done.
  by apply not_elem_of_nil in E.
Qed.

(** X18. The exit status of a run is 0 or 1. *)
Theorem run_status_zero_or_one (w : world) :
  (the_run w).1 = 0 ∨ (the_run w).1 = 1.
Proof.
  assert (exits_one
            (exportKnowledgeData Date_parse JSON_parse JSON_stringify clock
               writable DATA_DIR)) as Hone.
  { unfold exportKnowledgeData.
    apply exits_one_bind; [by apply no_exit_exits_one | intros _].
    apply exits_one_try_catch.
    2:{ intros m w'. by destruct (on_error_exits clock writable DATA_DIR m w')
          as [w'' ->]. }
    apply exits_one_bind; [by apply no_exit_exits_one | intros found].
    apply exits_one_bind.
    { destruct (negb found); [| by apply no_exit_exits_one].
      apply exits_one_bind; [by apply no_exit_exits_one | intros _].
      apply exits_one_bind; [by apply no_exit_exits_one | intros _]. done. }
    intros _. apply exits_one_bind; [by apply no_exit_exits_one | intros _].
    apply exits_one_bind.
    { apply no_exit_exits_one. intros w'. unfold fs_readFileSync.
      by destruct (files w' !! _). }
    intros text. apply exits_one_bind.
    { apply no_exit_exits_one. unfold parse. by destruct (JSON_parse text). }
    intros doc. apply no_exit_exits_one, no_exit_process. }
  specialize (Hone w). unfold run.
  destruct (exportKnowledgeData _ _ _ _ _ _ w) as [[[]|m|n] w']; simpl in *; auto.
Qed.


Lemma jsonToCsv_rendered (articles : list record) :
  jsonToCsv (PArray articles) = Return (rendered articles).
Proof. by destruct articles. Qed.

Lemma log_entry_line (timestamp operation status details : string) :
  "[" +:+ timestamp +:+ "] " +:+ operation +:+ ": " +:+ status +:+
    (if truthy (VStr details) then " - " +:+ details else "") +:+ str newline
  = log_line timestamp operation status details +:+ str newline.
Proof.
  unfold log_line, truthy. rewrite !append_assoc.
  destruct (String.eqb_spec details "") as [-> | Hne].
  - by rewrite decide_True.
  - by rewrite decide_False.
Qed.

Lemma logExport_writable (operation status details : string) (w : world) :
  writable LOG = true →
  log operation status details w
  = (Return (),
     {| files := <[LOG := default "" (files w !! LOG)
                          +:+ log_line (clock (ticks w)) operation status details
                          +:+ str newline]> (files w);
        stdout := stdout w; stderr := stderr w; ticks := S (ticks w) |}).
Proof.
  intros Hw. unfold logExport, mbind, M_bind, now_toISOString, try_catch,
    fs_appendFileSync. cbn [files stdout stderr ticks fst snd].
  by rewrite Hw, log_entry_line.
Qed.

Lemma logExport_denied (operation status details : string) (w : world) :
  writable LOG = false →
  log operation status details w
  = (Return (),
     {| files := files w; stdout := stdout w;
        stderr := stderr w ++ ["Failed to write to log file: " +:+ denied LOG];
        ticks := S (ticks w) |}).
Proof.
  intros Hw. unfold logExport, mbind, M_bind, now_toISOString, try_catch,
    fs_appendFileSync, console_error. cbn [files stdout stderr ticks fst snd].
  by rewrite Hw.
Qed.

(** X14. Logging is best effort and append-only: [logExport] always
    returns and reads the clock once; it changes no file but the log; when
    the log can be written its old content is kept and one line is added
    after it; when it cannot, no file changes and the failure is reported
    on the error stream. *)
Theorem logExport_best_effort (operation status details : string) (w : world) :
  ∃ w',
    log operation status details w = (Return (), w')
    ∧ ticks w' = S (ticks w)
    ∧ (∀ p, p ≠ LOG → files w' !! p = files w !! p)
    ∧ (writable LOG = true →
       files w' !! LOG
       = Some (default "" (files w !! LOG)
               +:+ log_line (clock (ticks w)) operation status details
               +:+ str newline)
       ∧ stderr w' = stderr w)
    ∧ (writable LOG = false →
       files w' = files w
       ∧ stderr w'
         = stderr w ++ ["Failed to write to log file: " +:+ denied LOG]).
Proof.
  destruct (writable LOG) eqn:Hw.
  - eexists. split; [by apply logExport_writable |]. simpl.
    split; [done |]. split; [| split; [| done]].
    + intros p Hp. by apply lookup_insert_ne.
    + intros _. split; [apply lookup_insert_eq | done].
  - eexists. split; [by apply logExport_denied |]. simpl.
    split; [done |]. split; [done |]. by split.
Qed.

Lemma write_ok (path data : string) (w : world) :
  writable path = true →
  fs_writeFileSync writable path data w
  = (Return (), {| files := <[path := data]> (files w); stdout := stdout w;
                   stderr := stderr w; ticks := ticks w |}).
Proof. intros H. unfold fs_writeFileSync. by rewrite H. Qed.

Lemma write_denied (path data : string) (w : world) :
  writable path = false →
  fs_writeFileSync writable path data w = (Throw (denied path), w).
Proof. intros H. unfold fs_writeFileSync. by rewrite H. Qed.

(** One statement of the script that returns: rewrite the run into the
    rest of the script in the world the statement leaves, and bring that
    world back to a record of its four parts. *)
Ltac step :=
  erewrite bind_return;
  [| first [ by apply logExport_writable
           | by apply logExport_denied
           | by apply write_ok
           | reflexivity ]];
  cbn [files stdout stderr ticks].

Ltac last_log :=
  first [ rewrite logExport_writable by done
        | rewrite logExport_denied by done ];
  cbn [files stdout stderr ticks].

(** What the [try] block does with an array, by what can be written. *)
Lemma process_array_ok (articles : list record) (w : world) :
  writable CSV = true → writable SUMMARY = true →
  ∃ w',
    process (PArray articles) w = (Return (), w')
    ∧ files w' !! CSV = Some (rendered articles)
    ∧ files w' !! SUMMARY
      = Some (JSON_stringify
                (summarize Date_parse (clock (S (S (ticks w)))) articles)).
Proof.
  intros Hc Hs.
  destruct paths_distinct as (_ & _ & _ & Hcs & Hcl & Hsl).
  unfold process_articles. rewrite jsonToCsv_rendered.
  destruct (writable LOG) eqn:Hl; do 21 step; last_log;
    (eexists; split; [reflexivity |]); cbn [files]; by simplify_map_eq.
Qed.

Lemma process_array_csv_denied (articles : list record) (w : world) :
  writable CSV = false →
  ∃ w',
    process (PArray articles) w = (Throw (denied CSV), w')
    ∧ files w' !! CSV = files w !! CSV
    ∧ files w' !! SUMMARY = files w !! SUMMARY.
Proof.
  intros Hc.
  destruct paths_distinct as (_ & _ & _ & Hcs & Hcl & Hsl).
  unfold process_articles. rewrite jsonToCsv_rendered.
  destruct (writable LOG) eqn:Hl; do 4 step;
    (erewrite bind_throw; [| by apply write_denied]);
    (eexists; split; [reflexivity |]); cbn [files]; by simplify_map_eq.
Qed.

Lemma process_array_summary_denied (articles : list record) (w : world) :
  writable CSV = true → writable SUMMARY = false →
  ∃ w',
    process (PArray articles) w = (Throw (denied SUMMARY), w')
    ∧ files w' !! CSV = Some (rendered articles)
    ∧ files w' !! SUMMARY = files w !! SUMMARY.
Proof.
  intros Hc Hs.
  destruct paths_distinct as (_ & _ & _ & Hcs & Hcl & Hsl).
  unfold process_articles. rewrite jsonToCsv_rendered.
  destruct (writable LOG) eqn:Hl; do 11 step;
    (erewrite bind_throw; [| by apply write_denied]);
    (eexists; split; [reflexivity |]); cbn [files]; by simplify_map_eq.
Qed.

Lemma on_error_effect (message : string) (w : world) :
  ∃ w', handler message w = (Exit 1, w')
        ∧ ∀ p, p ≠ LOG → files w' !! p = files w !! p.
Proof.
  unfold on_error.
  destruct (writable LOG) eqn:Hl; do 2 step;
    (eexists; split; [reflexivity |]); intros p Hp; cbn [files];
    by simplify_map_eq.
Qed.

Lemma exists_present (path text : string) (w : world) :
  files w !! path = Some text → fs_existsSync path w = (Return true, w).
Proof. intros H. unfold fs_existsSync. by rewrite H. Qed.

Lemma read_present (path text : string) (w : world) :
  files w !! path = Some text → fs_readFileSync path w = (Return text, w).
Proof. intros H. unfold fs_readFileSync. by rewrite H. Qed.

(** A run on an input that parses: the status and the world of the [try]
    block, started once the input has been read. *)
Lemma run_parsed (w : world) (text : string) (p : parsed) :
  files w !! JSON = Some text →
  JSON_parse text = Parsed p →
  the_run w
  = (exit_status (try_catch (process p) handler (reading w)).1,
     (try_catch (process p) handler (reading w)).2).
Proof.
  intros Hpresent Hparse.
  unfold run, exportKnowledgeData. step. unfold try_catch.
  erewrite bind_return; [| by eapply exists_present].
  cbn [negb]. step. step.
  erewrite bind_return; [| by eapply read_present].
  erewrite bind_return; [| unfold parse; by rewrite Hparse].
  unfold reading.
  destruct (process p _) as [[[]|m|n] w']; try done.
  by destruct (handler m w').
Qed.

Lemma run_status_missing (w : world) :
  files w !! JSON = None → (the_run w).1 = 1.
Proof.
  intros Hmissing.
  unfold run, exportKnowledgeData, try_catch, mbind, M_bind, fs_existsSync,
    console_log, console_error, process_exit. simpl.
  by rewrite Hmissing.
Qed.

Lemma run_status_syntax_error (w : world) (text message : string) :
  files w !! JSON = Some text →
  JSON_parse text = SyntaxError message →
  (the_run w).1 = 1.
Proof.
  intros Hpresent Hparse.
  unfold run, exportKnowledgeData.
  unfold mbind at 1. unfold M_bind at 1. unfold console_log at 1.
  cbv beta iota.
  match goal with
  | |- context [try_catch ?body ?h ?w0] =>
      pose proof (try_catch_failed clock writable DATA_DIR body w0) as Hcatch;
      destruct (try_catch body h w0) as [c w'] eqn:Hrun
  end.
  simpl in Hcatch. rewrite Hcatch; [done |]. clear Hcatch Hrun.
  unfold mbind, M_bind, fs_existsSync, fs_readFileSync, console_log. simpl.
  repeat (rewrite Hpresent; simpl). unfold parse. by rewrite Hparse.
Qed.

Lemma catch_throw (body : M ()) (w w1 : world) (m : string) :
  body w = (Throw m, w1) →
  ∃ w', try_catch body handler w = (Exit 1, w')
        ∧ ∀ p, p ≠ LOG → files w' !! p = files w1 !! p.
Proof.
  intros Hb. unfold try_catch. rewrite Hb. apply on_error_effect.
Qed.

(** X15. A run on an input that parses to an array of flat objects (every
    element an object whose values are null, booleans, numbers or strings),
    with the CSV and the summary writable, ends with status 0 whether or
    not the log can be written: the CSV file holds what [jsonToCsv]
    returns, the summary file holds [JSON.stringify] of what
    [generateSummary] returns for the third clock reading of the run, and
    the input file is as it was.  Arrays with other elements (null, nested
    arrays or objects) are outside [parsed] and not covered. *)
Theorem run_succeeds (w : world) (text : string) (articles : list record) :
  files w !! JSON = Some text →
  JSON_parse text = Parsed (PArray articles) →
  writable CSV = true → writable SUMMARY = true →
  ∃ w' csv summary,
    the_run w = (0, w')
    ∧ jsonToCsv (PArray articles) = Return csv
    ∧ generateSummary Date_parse (clock (S (S (ticks w)))) (PArray articles)
      = Return summary
    ∧ files w' !! CSV = Some csv
    ∧ files w' !! SUMMARY = Some (JSON_stringify summary)
    ∧ files w' !! JSON = Some text.
Proof.
  intros Hpresent Hparse Hc Hs.
  destruct paths_distinct as (Hjc & Hjs & Hjl & _).
  rewrite (run_parsed w text _ Hpresent Hparse).
  destruct (process_array_ok articles (reading w) Hc Hs) as (w' & Hrun & Hcsv & Hsum).
  pose proof (writes_only_process (PArray articles) (reading w) JSON) as Hframe.
  rewrite Hrun in Hframe. simpl in Hframe.
  unfold try_catch. rewrite Hrun. simpl.
  exists w', (rendered articles),
    (summarize Date_parse (clock (S (S (ticks w)))) articles).
  split; [done |]. split; [apply jsonToCsv_rendered |].
  split; [apply generateSummary_array |]. split; [done |]. split; [done |].
  rewrite Hframe; [done |].
  rewrite !elem_of_cons. intros [E | [E | [E | E]]]; try done.
  by apply not_elem_of_nil in E.
Qed.

(** X16. When the CSV cannot be written the run ends with status 1 and
    neither the CSV nor the summary file is changed. *)
Theorem run_csv_write_failure (w : world) (text : string) (articles : list record) :
  files w !! JSON = Some text →
  JSON_parse text = Parsed (PArray articles) →
  writable CSV = false →
  ∃ w',
    the_run w = (1, w')
    ∧ files w' !! CSV = files w !! CSV
    ∧ files w' !! SUMMARY = files w !! SUMMARY.
Proof.
  intros Hpresent Hparse Hc.
  destruct paths_distinct as (_ & _ & _ & _ & Hcl & Hsl).
  rewrite (run_parsed w text _ Hpresent Hparse).
  destruct (process_array_csv_denied articles (reading w) Hc)
    as (w1 & Hrun & Hcsv & Hsum).
  destruct (catch_throw _ _ _ _ Hrun) as (w' & Hcatch & Hfiles).
  rewrite Hcatch. exists w'. simpl. split; [done |].
  by rewrite !Hfiles, Hcsv, Hsum.
Qed.

(** X17. When the CSV is written but the summary cannot be, the run ends
    with status 1 and the CSV written stays: there is no rollback. *)
Theorem run_summary_write_failure
    (w : world) (text : string) (articles : list record) :
  files w !! JSON = Some text →
  JSON_parse text = Parsed (PArray articles) →
  writable CSV = true → writable SUMMARY = false →
  ∃ w' csv,
    the_run w = (1, w')
    ∧ jsonToCsv (PArray articles) = Return csv
    ∧ files w' !! CSV = Some csv
    ∧ files w' !! SUMMARY = files w !! SUMMARY.
Proof.
  intros Hpresent Hparse Hc Hs.
  destruct paths_distinct as (_ & _ & _ & _ & Hcl & Hsl).
  rewrite (run_parsed w text _ Hpresent Hparse).
  destruct (process_array_summary_denied articles (reading w) Hc Hs)
    as (w1 & Hrun & Hcsv & Hsum).
  destruct (catch_throw _ _ _ _ Hrun) as (w' & Hcatch & Hfiles).
  rewrite Hcatch. exists w', (rendered articles). simpl. split; [done |].
  split; [apply jsonToCsv_rendered |].
  by rewrite !Hfiles, Hcsv, Hsum.
Qed.

(** X21. A run ends with status 0 only if the input file is present, parses
    to an array, and both the CSV and the summary can be written. *)
Theorem run_succeeds_only_if (w : world) :
  (the_run w).1 = 0 →
  ∃ text articles,
    files w !! JSON = Some text
    ∧ JSON_parse text = Parsed (PArray articles)
    ∧ writable CSV = true ∧ writable SUMMARY = true.
Proof.
  intros Hzero.
  destruct (files w !! JSON) as [text|] eqn:Hpresent.
  2:{ by rewrite (run_status_missing w Hpresent) in Hzero. }
  destruct (JSON_parse text) as [message|p] eqn:Hparse.
  { by rewrite (run_status_syntax_error w text message Hpresent Hparse) in Hzero. }
  rewrite (run_parsed w text p Hpresent Hparse) in Hzero. simpl in Hzero.
  destruct (is_array p) eqn:Harray.
  2:{ rewrite (try_catch_failed clock writable DATA_DIR) in Hzero; [done |].
      by apply process_articles_non_array. }
  destruct p as [| |articles]; try done.
  destruct (writable CSV) eqn:Hc.
  2:{ destruct (process_array_csv_denied articles (reading w) Hc)
        as (w1 & Hrun & _).
      destruct (catch_throw _ _ _ _ Hrun) as (w' & Hcatch & _).
      by rewrite Hcatch in Hzero. }
  destruct (writable SUMMARY) eqn:Hs.
  2:{ destruct (process_array_summary_denied articles (reading w) Hc Hs)
        as (w1 & Hrun & _).
      destruct (catch_throw _ _ _ _ Hrun) as (w' & Hcatch & _).
      by rewrite Hcatch in Hzero. }
  by exists text, articles.
Qed.

Lemma prop_length_returns (p : parsed) :
  p ≠ PScalar SNull → ∃ len, prop_length p = Return len.
Proof. intros Hp. destruct p as [[| | |]| |]; try done; by eexists. Qed.

Lemma generateSummary_non_array_throws (p : parsed) :
  is_array p = false → p ≠ PScalar SNull →
  ∀ now, generateSummary Date_parse now p
         = Throw "articles.forEach is not a function".
Proof. intros Ha Hp now. by destruct p as [[| | |]| |]. Qed.

(** X20. A document that is not an array, but for which [jsonToCsv]
    returns (a falsy scalar other than null, or an object whose [length]
    is 0), still costs the CSV file its content: the run ends with status 1
    only in [generateSummary], after an empty CSV has been written. *)
Theorem run_non_array_empties_csv (w : world) (text csv : string) (p : parsed) :
  files w !! JSON = Some text →
  JSON_parse text = Parsed p →
  is_array p = false → p ≠ PScalar SNull →
  jsonToCsv p = Return csv →
  writable CSV = true →
  ∃ w', the_run w = (1, w') ∧ csv = "" ∧ files w' !! CSV = Some "".
Proof.
  intros Hpresent Hparse Harray Hnull Hcsv Hc.
  destruct paths_distinct as (_ & _ & _ & _ & Hcl & _).
  assert (csv = "") as ->.
  { destruct (jsonToCsv_non_array_cases p Harray) as [E | [m E]];
      rewrite E in Hcsv; by simplify_eq. }
  destruct (prop_length_returns p Hnull) as [len Hlen].
  pose proof (generateSummary_non_array_throws p Harray Hnull) as Hgs.
  rewrite (run_parsed w text _ Hpresent Hparse).
  assert (∃ m w1, process p (reading w) = (Throw m, w1)
                  ∧ files w1 !! CSV = Some "") as (m & w1 & Hrun & Hfile).
  { unfold process_articles. rewrite Hlen, Hcsv.
    destruct (writable LOG) eqn:Hl; do 10 step;
      (erewrite bind_throw; [| unfold lift; by rewrite Hgs]);
      (eexists _, _; split; [reflexivity |]); cbn [files];
      by simplify_map_eq. }
  destruct (catch_throw _ _ _ _ Hrun) as (w' & Hcatch & Hfiles).
  rewrite Hcatch. exists w'. simpl. split; [done |]. split; [done |].
  by rewrite Hfiles.
Qed.

(** X22. A successful run whose log can be written adds exactly four
    lines to the log, after what it held: the articles read, the CSV, the
    summary and the completion, stamped with the first, second, fourth
    and fifth clock readings of the run. *)
Theorem run_log_lines (w : world) (text : string) (articles : list record) :
  files w !! JSON = Some text →
  JSON_parse text = Parsed (PArray articles) →
  writable CSV = true → writable SUMMARY = true → writable LOG = true →
  let n := Number_toString (Z.of_nat (length articles)) in
  let t := ticks w in
  ∃ w',
    the_run w = (0, w')
    ∧ files w' !! LOG
      = Some (default "" (files w !! LOG)
              +:+ (log_line (clock t) "READ_ARTICLES" "SUCCESS"
                     (n +:+ " articles loaded") +:+ str newline)
              +:+ (log_line (clock (S t)) "GENERATE_CSV" "SUCCESS"
                     (n +:+ " articles converted") +:+ str newline)
              +:+ (log_line (clock (S (S (S t)))) "GENERATE_SUMMARY" "SUCCESS"
                     (n +:+ " articles analyzed") +:+ str newline)
              +:+ (log_line (clock (S (S (S (S t))))) "EXPORT_COMPLETE" "SUCCESS"
                     "All formats generated" +:+ str newline)).
Proof.
  intros Hpresent Hparse Hc Hs Hl n t.
  destruct paths_distinct as (_ & _ & _ & Hcs & Hcl & Hsl).
  rewrite (run_parsed w text _ Hpresent Hparse).
  unfold try_catch, process_articles. rewrite jsonToCsv_rendered.
  do 21 step. last_log.
  eexists. split; [reflexivity |].
  cbn [files stdout stderr ticks fst snd].
  rewrite (proj1 (fold_tally_article Date_parse articles _)).
  cbn [totalArticles initial_summary String_].
  simplify_map_eq. cbn [default]. fold n. fold t.
  by rewrite !append_assoc.
Qed.

End DriverExtras.

(** ** The further properties at concrete inputs *)


(** X2 at a title without special characters. *)
Lemma csv_plain_cell_verbatim_witness :
  let article := [("title", SStr "Hello")] in
  Get article "title" ≠ VNull
  ∧ Get article "title" ≠ VUndefined
  ∧ includes (String_ (Get article "title")) (str comma) = false
  ∧ includes (String_ (Get article "title")) (str dquote) = false
  ∧ includes (String_ (Get article "title")) (str newline) = false
  ∧ csv_cell (Get article "title") = String_ (Get article "title").
Proof.
  intros article.
  assert (Get article "title" ≠ VNull) as H1 by discriminate.
  assert (Get article "title" ≠ VUndefined) as H2 by discriminate.
  split; [exact H1 |]. split; [exact H2 |].
  split; [reflexivity |]. split; [reflexivity |]. split; [reflexivity |].
  exact (csv_plain_cell_verbatim article "title" H1 H2 eq_refl eq_refl eq_refl).
Defined.

(** X3 at a record without fields. *)
Lemma csv_missing_field_empty_iff_witness :
  own [] "title" = None
  ∧ (csv_cell (Get [] "title") = "" ↔ ¬ inherited "title").
Proof.
  split; [reflexivity |].
  exact (csv_missing_field_empty_iff [] "title" eq_refl).
Defined.

(** X4 at the scalar false. *)
Lemma jsonToCsv_non_array_witness :
  let p := PScalar (SBool false) in
  is_array p = false
  ∧ ((jsonToCsv p = Return ""
      ∧ (truthy_parsed p = false
         ∨ ∃ len, prop_length p = Return len ∧ is_zero len = true))
     ∨ (∃ message, jsonToCsv p = Throw message
        ∧ truthy_parsed p = true
        ∧ ∀ len, prop_length p = Return len → is_zero len = false)).
Proof.
  intros p. split; [reflexivity |].
  exact (jsonToCsv_non_array p eq_refl).
Defined.

(** X5 at a later record with a field the first record lacks. *)
Lemma jsonToCsv_ignores_extra_fields_witness :
  let first := [("a", SStr "x")] in
  let wide := [("a", SStr "y"); ("b", SStr "z")] in
  let narrow := [("a", SStr "y")] in
  Forall2 (fun a b => ∀ header, header ∈ Object_keys first →
                                own a header = own b header) [wide] [narrow]
  ∧ jsonToCsv (PArray [first; wide]) = jsonToCsv (PArray [first; narrow]).
Proof.
  intros first wide narrow.
  assert (Forall2 (fun a b => ∀ header, header ∈ Object_keys first →
                                        own a header = own b header)
            [wide] [narrow]) as H.
  { constructor; [| constructor].
    intros header Hin. apply list_elem_of_singleton in Hin. by subst header. }
  split; [exact H |].
  exact (jsonToCsv_ignores_extra_fields first [wide] [narrow] H).
Defined.

(** X6 at the name FAQ. *)
Lemma tally_counts_records_witness :
  let faq := [("articleType", SStr "FAQ")] in
  ¬ inherited "FAQ"
  ∧ ∃ s,
      generateSummary iso_date_parse "" (PArray [faq; faq]) = Return s
      ∧ tally ArticleType s !! "FAQ"
        = match occurrences (field_name ArticleType) "FAQ" [faq; faq] with
          | O => None
          | S n => Some (VNum (Z.of_nat (S n)))
          end.
Proof.
  intros faq.
  assert (¬ inherited "FAQ") as H by (intros E; by apply E).
  split; [exact H |].
  exact (tally_counts_records iso_date_parse "" [faq; faq] ArticleType "FAQ" H).
Defined.

(** X8 at an article type named like a built-in method. *)
Lemma tally_inherited_is_text_witness :
  let odd := [("articleType", SStr "toString")] in
  odd ∈ [odd]
  ∧ inherited (bucket (field_name ArticleType) odd)
  ∧ bucket (field_name ArticleType) odd ≠ "__proto__"
  ∧ ∃ s text,
      generateSummary iso_date_parse "" (PArray [odd]) = Return s
      ∧ tally ArticleType s !! bucket (field_name ArticleType) odd
        = Some (VStr text).
Proof.
  intros odd.
  assert (odd ∈ [odd]) as H1 by (apply elem_of_cons; by left).
  assert (inherited (bucket (field_name ArticleType) odd)) as H2 by discriminate.
  assert (bucket (field_name ArticleType) odd ≠ "__proto__") as H3 by discriminate.
  split; [exact H1 |]. split; [exact H2 |]. split; [exact H3 |].
  exact (tally_inherited_is_text iso_date_parse "" [odd] ArticleType odd H1 H2 H3).
Defined.

(** X12 at a first date that is not a date. *)
Lemma unparseable_first_date_stays_witness :
  let unknown := [("createdDate", SStr "unknown")] in
  let dated := [("createdDate", SStr "2023-01-01")] in
  present_dates [unknown; dated] = [VStr "unknown"; VStr "2023-01-01"]
  ∧ Date_of iso_date_parse (VStr "unknown") = None
  ∧ ∃ s,
      generateSummary iso_date_parse "" (PArray [unknown; dated]) = Return s
      ∧ earliest s = VStr "unknown" ∧ latest s = VStr "unknown".
Proof.
  intros unknown dated.
  split; [reflexivity |]. split; [reflexivity |].
  exact (unparseable_first_date_stays iso_date_parse "" [unknown; dated]
           (VStr "unknown") [VStr "2023-01-01"] eq_refl eq_refl).
Defined.

(** X15 at an array of one empty object, everything writable. *)
Lemma run_succeeds_witness :
  let w := sample_world "[{}]" in
  files w !! ARTICLES_JSON "data" = Some "[{}]"
  ∧ sample_parse "[{}]" = Parsed (PArray [[]])
  ∧ ∃ w' csv summary,
      sample_run (fun _ => true) w = (0, w')
      ∧ jsonToCsv (PArray [[]]) = Return csv
      ∧ generateSummary iso_date_parse (sample_clock (S (S (ticks w))))
          (PArray [[]]) = Return summary
      ∧ files w' !! ARTICLES_CSV "data" = Some csv
      ∧ files w' !! SUMMARY_JSON "data" = Some "{}"
      ∧ files w' !! ARTICLES_JSON "data" = Some "[{}]".
Proof.
  intros w. split; [reflexivity |]. split; [reflexivity |].
  exact (run_succeeds iso_date_parse sample_parse (fun _ => "{}") sample_clock
           (fun _ => true) "data" w "[{}]" [[]] eq_refl eq_refl eq_refl eq_refl).
Defined.

(** X16 at a CSV that cannot be written. *)
Lemma run_csv_write_failure_witness :
  let w := sample_world "[{}]" in
  files w !! ARTICLES_JSON "data" = Some "[{}]"
  ∧ sample_parse "[{}]" = Parsed (PArray [[]])
  ∧ all_but "data/articles.csv" (ARTICLES_CSV "data") = false
  ∧ ∃ w',
      sample_run (all_but "data/articles.csv") w = (1, w')
      ∧ files w' !! ARTICLES_CSV "data" = files w !! ARTICLES_CSV "data"
      ∧ files w' !! SUMMARY_JSON "data" = files w !! SUMMARY_JSON "data".
Proof.
  intros w. split; [reflexivity |]. split; [reflexivity |].
  split; [reflexivity |].
  exact (run_csv_write_failure iso_date_parse sample_parse (fun _ => "{}")
           sample_clock (all_but "data/articles.csv") "data" w "[{}]" [[]]
           eq_refl eq_refl eq_refl).
Defined.

(** X17 at a summary that cannot be written. *)
Lemma run_summary_write_failure_witness :
  let w := sample_world "[{}]" in
  files w !! ARTICLES_JSON "data" = Some "[{}]"
  ∧ sample_parse "[{}]" = Parsed (PArray [[]])
  ∧ all_but "data/articles_summary.json" (ARTICLES_CSV "data") = true
  ∧ all_but "data/articles_summary.json" (SUMMARY_JSON "data") = false
  ∧ ∃ w' csv,
      sample_run (all_but "data/articles_summary.json") w = (1, w')
      ∧ jsonToCsv (PArray [[]]) = Return csv
      ∧ files w' !! ARTICLES_CSV "data" = Some csv
      ∧ files w' !! SUMMARY_JSON "data" = files w !! SUMMARY_JSON "data".
Proof.
  intros w. split; [reflexivity |]. split; [reflexivity |].
  split; [reflexivity |]. split; [reflexivity |].
  exact (run_summary_write_failure iso_date_parse sample_parse (fun _ => "{}")
           sample_clock (all_but "data/articles_summary.json") "data" w "[{}]"
           [[]] eq_refl eq_refl eq_refl eq_refl).
Defined.

(** X19 at a file the script does not know. *)
Lemma run_writes_outputs_only_witness :
  let w := sample_world "[{}]" in
  ("data/notes.txt"
   ∉ [ARTICLES_CSV "data"; SUMMARY_JSON "data"; LOG_FILE "data"])
  ∧ files (sample_run (fun _ => true) w).2 !! "data/notes.txt"
    = files w !! "data/notes.txt"
  ∧ files (sample_run (fun _ => true) w).2 !! ARTICLES_JSON "data"
    = files w !! ARTICLES_JSON "data".
Proof.
  intros w.
  assert ("data/notes.txt"
          ∉ [ARTICLES_CSV "data"; SUMMARY_JSON "data"; LOG_FILE "data"]) as H.
  { rewrite !elem_of_cons. intros [E | [E | [E | E]]]; try discriminate E.
    by apply not_elem_of_nil in E. }
  split; [exact H |].
  exact (run_writes_outputs_only iso_date_parse sample_parse (fun _ => "{}")
           sample_clock (fun _ => true) "data" w "data/notes.txt" H).
Defined.

(** X20 at an input file that holds the scalar false. *)
Lemma run_non_array_empties_csv_witness :
  let w := sample_world "false" in
  let p := PScalar (SBool false) in
  files w !! ARTICLES_JSON "data" = Some "false"
  ∧ sample_parse "false" = Parsed p
  ∧ is_array p = false ∧ p ≠ PScalar SNull
  ∧ jsonToCsv p = Return ""
  ∧ ∃ w', sample_run (fun _ => true) w = (1, w')
          ∧ "" = "" ∧ files w' !! ARTICLES_CSV "data" = Some "".
Proof.
  intros w p.
  assert (p ≠ PScalar SNull) as Hnull by discriminate.
  split; [reflexivity |]. split; [reflexivity |]. split; [reflexivity |].
  split; [exact Hnull |]. split; [reflexivity |].
  exact (run_non_array_empties_csv iso_date_parse sample_parse (fun _ => "{}")
           sample_clock (fun _ => true) "data" w "false" "" p
           eq_refl eq_refl eq_refl Hnull eq_refl eq_refl).
Defined.

(** X21 at a run that succeeds. *)
Lemma run_succeeds_only_if_witness :
  let w := sample_world "[{}]" in
  (sample_run (fun _ => true) w).1 = 0
  ∧ ∃ text articles,
      files w !! ARTICLES_JSON "data" = Some text
      ∧ sample_parse text = Parsed (PArray articles)
      ∧ (fun _ : string => true) (ARTICLES_CSV "data") = true
      ∧ (fun _ : string => true) (SUMMARY_JSON "data") = true.
Proof.
  intros w.
  assert ((sample_run (fun _ => true) w).1 = 0) as H by (by vm_compute).
  split; [exact H |].
  exact (run_succeeds_only_if iso_date_parse sample_parse (fun _ => "{}")
           sample_clock (fun _ => true) "data" w H).
Defined.

(** X22 at an array of one empty object, everything writable. *)
Lemma run_log_lines_witness :
  let w := sample_world "[{}]" in
  files w !! ARTICLES_JSON "data" = Some "[{}]"
  ∧ sample_parse "[{}]" = Parsed (PArray [[]])
  ∧ ∃ w',
      sample_run (fun _ => true) w = (0, w')
      ∧ files w' !! LOG_FILE "data"
        = Some (default "" (files w !! LOG_FILE "data")
                +:+ (log_line (sample_clock 0) "READ_ARTICLES" "SUCCESS"
                       ("1" +:+ " articles loaded") +:+ str newline)
                +:+ (log_line (sample_clock 1) "GENERATE_CSV" "SUCCESS"
                       ("1" +:+ " articles converted") +:+ str newline)
                +:+ (log_line (sample_clock 3) "GENERATE_SUMMARY" "SUCCESS"
                       ("1" +:+ " articles analyzed") +:+ str newline)
                +:+ (log_line (sample_clock 4) "EXPORT_COMPLETE" "SUCCESS"
                       "All formats generated" +:+ str newline)).
Proof.
  intros w. split; [reflexivity |]. split; [reflexivity |].
  exact (run_log_lines iso_date_parse sample_parse (fun _ => "{}") sample_clock
           (fun _ => true) "data" w "[{}]" [[]]
           eq_refl eq_refl eq_refl eq_refl eq_refl).
Defined.
